(** * node_size_debugger: output strategies and command-line dispatcher

    A shallow embedding of [tool/node_size_debugger.cpp]: the three
    serializers ([simple_serializer], [verbose_serializer],
    [code_serializer]), the [serialize] driver over the fixed tuple of
    debuggers, the diagnostics and [main].

    Streams are modelled by explicit state passing: an [ostream] is the text
    written so far together with the pending field width (the only piece of
    formatting state the program touches, through [std::setw]). *)

From Stdlib Require Import NArith ZArith Lia DecimalString DecimalN.
From Stdlib Require Import Ascii.
From Stdlib Require String.
From stdpp Require Import base gmap strings list.

Local Open Scope N_scope.

(** ** C literals

    Rocq string literals have no escape sequences. [unescape] interprets the
    three escapes the source uses (backslash-n, backslash-t and the doubled
    backslash), so that the literals below are written as in the C++ file.
    [cstr] and [cchr] evaluate it when the literal is parsed. *)

Definition NL : ascii := "010"%char.
Definition HT : ascii := "009"%char.

Fixpoint unescape (s : string) : string :=
  match s with
  | EmptyString => EmptyString
  | String "\"%char (String "n"%char rest) => String NL (unescape rest)
  | String "\"%char (String "t"%char rest) => String HT (unescape rest)
  | String "\"%char (String "\"%char rest) => String "\"%char (unescape rest)
  | String c rest => String c (unescape rest)
  end.

Definition first_char (s : string) : ascii :=
  match s with
  | String c _ => c
  | EmptyString => "000"%char
  end.

Abbreviation cstr s :=
  (ltac:(let v := eval vm_compute in (unescape s) in exact v)) (only parsing).
Abbreviation cchr s :=
  (ltac:(let v := eval vm_compute in (first_char (unescape s)) in exact v))
  (only parsing).

(** ** Output streams *)

Record ostream := { os_text : string; os_width : nat }.

Definition fresh_stream (buffer : string) : ostream :=
  {| os_text := buffer; os_width := 0 |}.

Fixpoint spaces (n : nat) : string :=
  match n with
  | O => EmptyString
  | S n => String " "%char (spaces n)
  end.

(** Padding of a formatted field: the fill character is the space and the
    adjustment is the stream default, which puts the fill BEFORE the text.
    A field already as wide as [w] is written unchanged. *)
Definition pad_field (w : nat) (s : string) : string :=
  spaces (w - String.length s) +:+ s.

(** Every formatted insertion pads to the pending width and resets it. *)
Definition write (s : string) (os : ostream) : ostream :=
  {| os_text := os_text os +:+ pad_field (os_width os) s; os_width := 0 |}.

(** Decimal text of a [std::size_t]. *)
Definition dec (n : N) : string := NilZero.string_of_uint (N.to_uint n).

Inductive manipulator := setw (n : nat).

(** [operator<<], overloaded on the type of its right operand. *)
Class Insert (A : Type) := insert : ostream -> A -> ostream.

#[export] Instance insert_string : Insert string := fun os s => write s os.
#[export] Instance insert_char : Insert ascii :=
  fun os c => write (String c EmptyString) os.
#[export] Instance insert_size_t : Insert N := fun os n => write (dec n) os.
#[export] Instance insert_manipulator : Insert manipulator :=
  fun os m => match m with
              | setw n => {| os_text := os_text os; os_width := n |}
              end.

Notation "os << x" := (insert os x) (at level 50, left associativity).

(** ** Result model *)

(** Modelled from the spec: [debug_result] is declared in
    [node_size_debugger.hpp], which is not among the sources. A result is a
    container name and the sequence of (alignment, base node size) pairs, in
    the order the range-for of the serializers visits them. *)
Record debug_result := {
  container_name : string;
  node_sizes : list (N * N)
}.

Definition exe_name : string := "foonathan_memory_node_size_debugger".
Definition exe_spaces : string := spaces (String.length exe_name).

(** ** The serializers

    Each serializer's [out] member is the stream threaded through its
    methods; [call] is the function-call operator. *)

Module simple_serializer.

Variant t := Build.

Definition prefix (self : t) (out : ostream) : ostream := out.

Definition call (self : t) (result : debug_result) (out : ostream)
    : ostream :=
  let out := out << container_name result << cstr ":\n" in
  fold_left
    (fun out (pair : N * N) =>
       out << cchr "\t" << pair.1 << cchr "=" << pair.2 << cchr "\n")
    (node_sizes result) out.

Definition suffix (self : t) (out : ostream) : ostream := out.

End simple_serializer.

Module verbose_serializer.

Variant t := Build.

Definition prefix (self : t) (out : ostream) : ostream := out.

Definition call (self : t) (result : debug_result) (out : ostream)
    : ostream :=
  let out := out << "For container '" << container_name result
                 << cstr "':\n" in
  fold_left
    (fun out (pair : N * N) =>
       out << cchr "\t" << "With an alignment of " << setw 2 << pair.1
           << " is the base node size " << setw 2 << pair.2 << cstr ".\n")
    (node_sizes result) out.

Definition suffix (self : t) (out : ostream) : ostream := out.

End verbose_serializer.

Module code_serializer.

Record t := Build { tab_width : N }.

Definition prefix (self : t) (out : ostream) : ostream :=
  let out := out << "// The following section was autogenerated by "
                 << exe_name << cchr "\n" in
  out << cstr "//=== BEGIN AUTOGENERATED SECTION ===//\n\n".

Definition tab (self : t) : string :=
  if tab_width self =? 0 then cstr "\t"
  else spaces (N.to_nat (tab_width self)).

Definition struct_name (container_name : string) : string :=
  container_name +:+ "_node_size".

Definition alignment : string := "FOONATHAN_ALIGNOF(T)".

Definition call (self : t) (result : debug_result) (out : ostream)
    : ostream :=
  let newline := cstr "\n" in
  let out :=
    out << "namespace detail" << newline << cchr "{" << newline
        << tab self << "template <std::size_t Alignment>" << newline
        << tab self << "struct " << struct_name (container_name result)
        << cchr ";" << newline in
  let out :=
    fold_left
      (fun out (pair : N * N) =>
         out << newline
             << tab self << "template <>" << newline
             << tab self << "struct "
             << struct_name (container_name result)
             << cchr "<" << pair.1 << cchr ">" << newline
             << tab self << ": std::integral_constant<std::size_t, "
             << pair.2 << cchr ">" << newline
             << tab self << "{};" << newline)
      (node_sizes result) out in
  out << "} // namespace detail" << newline << newline
      << "template <typename T>" << newline
      << "struct " << struct_name (container_name result) << newline
      << ": std::integral_constant<std::size_t," << newline
      << "       detail::" << struct_name (container_name result)
      << cchr "<" << alignment << ">::value + sizeof(T)>" << newline
      << "{};" << newline << newline.

Definition suffix (self : t) (out : ostream) : ostream :=
  out << cstr "//=== END AUTOGENERATED SECTION ===//\n".

End code_serializer.

(** The contract the [serialize] templates expect of their [Serializer]
    argument. *)
Class Serializer (S : Type) := {
  prefix : S -> ostream -> ostream;
  call : S -> debug_result -> ostream -> ostream;
  suffix : S -> ostream -> ostream
}.

#[export] Instance simple_Serializer : Serializer simple_serializer.t := {|
  prefix := simple_serializer.prefix;
  call := simple_serializer.call;
  suffix := simple_serializer.suffix
|}.

#[export] Instance verbose_Serializer : Serializer verbose_serializer.t := {|
  prefix := verbose_serializer.prefix;
  call := verbose_serializer.call;
  suffix := verbose_serializer.suffix
|}.

#[export] Instance code_Serializer : Serializer code_serializer.t := {|
  prefix := code_serializer.prefix;
  call := code_serializer.call;
  suffix := code_serializer.suffix
|}.

(** ** The debuggers tuple *)

Inductive debugger :=
| debug_forward_list | debug_list
| debug_set | debug_multiset | debug_unordered_set | debug_unordered_multiset
| debug_map | debug_multimap | debug_unordered_map | debug_unordered_multimap.

Definition debuggers : list debugger :=
  [debug_forward_list; debug_list;
   debug_set; debug_multiset; debug_unordered_set; debug_unordered_multiset;
   debug_map; debug_multimap; debug_unordered_map; debug_unordered_multimap].

(** ** The process state

    [invoked] is ghost state: the serializer methods called so far, newest
    last, recorded at the call sites in [serialize] and [serialize_impl]. *)

Inductive invocation :=
| invoke_prefix
| invoke_call (result : debug_result)
| invoke_suffix.

Record pass := { pass_out : ostream; pass_log : list invocation }.

Record world := {
  cout : ostream;
  cerr : ostream;
  files : gmap string string;
  invoked : list invocation
}.

(** Result of the option loop of the [--code] branch: either it runs to the
    end, or a [return] leaves [main] from inside it. *)
Inductive scanned :=
| Scanned (tab_width : N) (file : option string) (w : world)
| Returned (status : Z) (w : world).

(** [s[i]] on a NUL-terminated string. *)
Definition c_index (s : string) (i : nat) : ascii :=
  match String.get i s with
  | Some c => c
  | None => "000"%char
  end.

Definition isdigit (c : ascii) : bool :=
  (N_of_ascii "0" <=? N_of_ascii c) && (N_of_ascii c <=? N_of_ascii "9").

Fixpoint skip_dashes (option : string) : string :=
  match option with
  | String "-"%char rest => skip_dashes rest
  | _ => option
  end.

Definition print_invalid_option (out : ostream) (option : string)
    : Z * ostream :=
  let out := out << exe_name << ": invalid option -- '" in
  let option := skip_dashes option in
  let out := out << option << cstr "'\n" in
  let out := out << "Try '" << exe_name
                 << cstr " --help' for more information.\n" in
  (2%Z, out).

Definition print_invalid_argument (out : ostream) (option : string)
    : Z * ostream :=
  let out := out << exe_name << ": invalid argument for option -- '"
                 << option << cstr "'\n" in
  let out := out << "Try '" << exe_name
                 << cstr " --help' for more information.\n" in
  (2%Z, out).

Definition print_help (out : ostream) : ostream :=
  let out := out << "Usage: " << exe_name << cstr " [--version][--help]\n" in
  let out := out << "       " << exe_spaces << cstr " [--simple][--verbose]\n" in
  let out := out << "       " << exe_spaces
                 << cstr " [--code [-t digit] [outputfile]]\n" in
  let out := out << cstr "Obtains information about the internal node sizes of the STL containers.\n" in
  let out := out << cchr "\n" in
  let out := out << cstr "   --simple\tprints node sizes in the form 'alignment=base-node-size'\n" in
  let out := out << cstr "   --verbose\tprints node sizes in a more verbose form\n" in
  let out := out << cstr "   --code\tgenerates C++ code to obtain the node size\n" in
  let out := out << cstr "   --help\tdisplay this help and exit\n" in
  let out := out << cstr "   --version\toutput version information and exit\n" in
  let out := out << cchr "\n" in
  let out := out << cstr "Options for code generation: \n" in
  let out := out << cstr "   -t\tfollowed by single digit specifying tab width, 0 uses '\\t'\n" in
  let out := out << cchr "\n" in
  let out := out << cstr "The base node size is the size of the node without the storage for the value type.\n"
                 << cstr "Add 'sizeof(value_type)' to the base node size for the appropriate alignment to get the whole size.\n" in
  out << cstr "With no options prints base node sizes of all containers in a simple manner.\n".

Definition set_cout (os : ostream) (w : world) : world :=
  {| cout := os; cerr := cerr w; files := files w; invoked := invoked w |}.

Definition set_cerr (os : ostream) (w : world) : world :=
  {| cout := cout w; cerr := os; files := files w; invoked := invoked w |}.

Definition set_file (path text : string) (w : world) : world :=
  {| cout := cout w; cerr := cerr w; files := <[path := text]> (files w);
     invoked := invoked w |}.

Definition set_invoked (log : list invocation) (w : world) : world :=
  {| cout := cout w; cerr := cerr w; files := files w; invoked := log |}.

(** A diagnostic on [std::cerr], leaving [main] with its status. *)
Definition fail_with (diagnostic : ostream -> Z * ostream) (w : world)
    : Z * world :=
  let '(status, err) := diagnostic (cerr w) in (status, set_cerr err w).

Section dispatcher.

(** The probe [debug(Debugger{})] of [node_size_debugger.hpp], the
    [VERSION] macro, and whether [std::ofstream::open] succeeds on a path:
    none is defined by the sources, all three are parameters. *)
Variable debug : debugger -> debug_result.
Variable VERSION : string.
Variable can_open : string -> bool.

Section serialize.
Context {S : Type} `{Serializer S}.

Definition run_prefix (serializer : S) (p : pass) : pass :=
  {| pass_out := prefix serializer (pass_out p);
     pass_log := pass_log p ++ [invoke_prefix] |}.

Definition run_call (serializer : S) (result : debug_result) (p : pass)
    : pass :=
  {| pass_out := call serializer result (pass_out p);
     pass_log := pass_log p ++ [invoke_call result] |}.

Definition run_suffix (serializer : S) (p : pass) : pass :=
  {| pass_out := suffix serializer (pass_out p);
     pass_log := pass_log p ++ [invoke_suffix] |}.

Definition serialize_single (d : debugger) (serializer : S) (p : pass)
    : pass :=
  let p := run_prefix serializer p in
  let p := run_call serializer (debug d) p in
  run_suffix serializer p.

(** The braced initializer of [dummy] evaluates its elements from left
    to right. *)
Definition serialize_impl (serializer : S) (ds : list debugger)
    (p : pass) : pass :=
  fold_left (fun p d => run_call serializer (debug d) p) ds p.

Definition serialize (serializer : S) (p : pass) : pass :=
  let p := run_prefix serializer p in
  let p := serialize_impl serializer debuggers p in
  run_suffix serializer p.

(** [serialize] on a serializer whose [out] is [std::cout]. *)
Definition serialize_cout (serializer : S) (w : world) : world :=
  let p := serialize serializer
             {| pass_out := cout w; pass_log := invoked w |} in
  set_invoked (pass_log p) (set_cout (pass_out p) w).

(** [serialize] on a serializer whose [out] is the local stream of the
    [--code] branch: a stream object of its own (fresh formatting state)
    on the buffer of [std::cout] or, once [file] is open, on the
    file's. *)
Definition serialize_out (serializer : S) (file : option string)
    (w : world) : world :=
  match file with
  | None =>
      let p := serialize serializer
                 {| pass_out := fresh_stream (os_text (cout w));
                    pass_log := invoked w |} in
      set_invoked (pass_log p)
        (set_cout {| os_text := os_text (pass_out p);
                     os_width := os_width (cout w) |} w)
  | Some path =>
      let p := serialize serializer
                 {| pass_out := fresh_stream (files w !!! path);
                    pass_log := invoked w |} in
      set_invoked (pass_log p)
        (set_file path (os_text (pass_out p)) w)
  end.
End serialize.

Definition print_version (out : ostream) : ostream :=
  out << exe_name << " version " << VERSION << cchr "\n".

(** The [for] loop over [argv + 2] up to the terminating null pointer;
    [file = Some path] stands for [file.is_open()]. Opening creates or
    truncates the file. *)
Fixpoint scan_options (cur : list string) (tab_width : N)
    (file : option string) (w : world) : scanned :=
  match cur with
  | [] => Scanned tab_width file w
  | arg :: cur =>
      if String.eqb arg "-t" then
        match cur with
        | digit :: cur =>
            if isdigit (c_index digit 0)
               && Ascii.eqb (c_index digit 1) "000"
            then scan_options cur
                   (N_of_ascii (c_index digit 0) - N_of_ascii "0") file w
            else
              let '(status, w) :=
                fail_with (fun err => print_invalid_argument err "-t") w in
              Returned status w
        | [] =>
            let '(status, w) :=
              fail_with (fun err => print_invalid_argument err "-t") w in
            Returned status w
        end
      else
        match file with
        | None =>
            if can_open arg
            then scan_options cur tab_width (Some arg)
                   (set_file arg EmptyString w)
            else
              let '(status, w) :=
                fail_with
                  (fun err => print_invalid_argument err "outputfile") w in
              Returned status w
        | Some _ =>
            let '(status, w) :=
              fail_with
                (fun err => print_invalid_argument err "--code") w in
            Returned status w
        end
  end.

Definition main (argv : list string) (w : world) : Z * world :=
  match argv with
  | [] | [_] => (0%Z, serialize_cout simple_serializer.Build w)
  | _ :: argv1 :: _ =>
      if String.eqb argv1 "--simple" then
        (0%Z, serialize_cout simple_serializer.Build w)
      else if String.eqb argv1 "--verbose" then
        (0%Z, serialize_cout verbose_serializer.Build w)
      else if String.eqb argv1 "--code" then
        match scan_options (drop 2 argv) 4 None w with
        | Returned status w => (status, w)
        | Scanned tab_width file w =>
            (0%Z, serialize_out (code_serializer.Build tab_width) file w)
        end
      else if String.eqb argv1 "--help" then
        (0%Z, set_cout (print_help (cout w)) w)
      else if String.eqb argv1 "--version" then
        (0%Z, set_cout (print_version (cout w)) w)
      else
        fail_with
          (fun err => print_invalid_option err argv1) w
  end.

End dispatcher.

(** * Specification vocabulary

    Definitions used to state the properties below; none of them is part of
    the program. *)

(** The process starts with nothing written, no pending field width and
    no serializer method called; [fs] is the content of the file system. *)
Definition initial_world (fs : gmap string string) : world :=
  {| cout := fresh_stream EmptyString; cerr := fresh_stream EmptyString;
     files := fs; invoked := [] |}.

(** ** Text: lines and blanks *)

Fixpoint no_newline (s : string) : bool :=
  match s with
  | EmptyString => true
  | String c rest => negb (Ascii.eqb c NL) && no_newline rest
  end.

(** A token of [argv] is a NUL-terminated string: it holds no NUL. *)
Fixpoint c_string (s : string) : bool :=
  match s with
  | EmptyString => true
  | String c rest => negb (Ascii.eqb c "000") && c_string rest
  end.

Definition unlines (ls : list string) : string :=
  fold_right (fun l text => l +:+ String NL text) EmptyString ls.

(** The newline-terminated lines of a text (and its unterminated rest, when
    there is one). *)
Fixpoint lines (s : string) : list string :=
  match s with
  | EmptyString => []
  | String c rest =>
      if Ascii.eqb c NL then EmptyString :: lines rest
      else match lines rest with
           | [] => [String c EmptyString]
           | l :: ls => String c l :: ls
           end
  end.

Definition is_blank (c : ascii) : bool := Ascii.eqb c " " || Ascii.eqb c HT.

Fixpoint all_blank (s : string) : bool :=
  match s with
  | EmptyString => true
  | String c rest => is_blank c && all_blank rest
  end.

(** The indentation of a line: its longest prefix of spaces and tabs. *)
Fixpoint leading_blanks (s : string) : string :=
  match s with
  | String c rest =>
      if is_blank c then String c (leading_blanks rest) else EmptyString
  | EmptyString => EmptyString
  end.

Fixpoint drop_blanks (s : string) : string :=
  match s with
  | String c rest => if is_blank c then drop_blanks rest else s
  | EmptyString => EmptyString
  end.

Definition contains (needle text : string) : Prop :=
  exists before after, text = before +:+ needle +:+ after.

Fixpoint count_lines (p : string -> bool) (ls : list string) : nat :=
  match ls with
  | [] => 0
  | l :: ls => ((if p l then 1 else 0) + count_lines p ls)%nat
  end.

Fixpoint dashes (n : nat) : string :=
  match n with
  | O => EmptyString
  | S n => String "-" (dashes n)
  end.

Definition starts_with (c : ascii) (s : string) : bool :=
  match s with
  | String c' _ => Ascii.eqb c' c
  | EmptyString => false
  end.

(** ** Decimal text *)

(** Reading a decimal text back. *)
Definition read_dec (s : string) : option N :=
  option_map N.of_uint (NilZero.uint_of_string s).

(** A token consisting of a single decimal digit. *)
Definition single_decimal_digit (token : string) : Prop :=
  exists n : N, n <= 9 /\ token = dec n.

(** ** The layout of a generated block

    The lines [code_serializer.call] writes, given the indentation unit
    [unit] returned by [tab]. *)

Definition specialization_lines (unit name : string) (pair : N * N)
    : list string :=
  [ EmptyString;
    unit +:+ "template <>";
    unit +:+ "struct " +:+ name +:+ "_node_size<" +:+ dec pair.1 +:+ ">";
    unit +:+ ": std::integral_constant<std::size_t, " +:+ dec pair.2 +:+ ">";
    unit +:+ "{};" ].

Definition block_head (unit name : string) : list string :=
  [ "namespace detail";
    "{";
    unit +:+ "template <std::size_t Alignment>";
    unit +:+ "struct " +:+ name +:+ "_node_size;" ].

Definition block_tail (name : string) : list string :=
  [ "} // namespace detail";
    EmptyString;
    "template <typename T>";
    "struct " +:+ name +:+ "_node_size";
    ": std::integral_constant<std::size_t,";
    "       detail::" +:+ name
      +:+ "_node_size<FOONATHAN_ALIGNOF(T)>::value + sizeof(T)>";
    "{};";
    EmptyString ].

Definition block_lines (unit : string) (result : debug_result)
    : list string :=
  block_head unit (container_name result)
  ++ concat (map (specialization_lines unit (container_name result))
               (node_sizes result))
  ++ block_tail (container_name result).

(** The line that opens an explicit specialization. *)
Definition opens_specialization (line : string) : bool :=
  String.eqb (drop_blanks line) "template <>".

Definition comment_line : string :=
  "// The following section was autogenerated by " +:+ exe_name.
Definition begin_marker : string := "//=== BEGIN AUTOGENERATED SECTION ===//".
Definition end_marker : string := "//=== END AUTOGENERATED SECTION ===//".

(** The registry, in the order of the specification: singly-linked list,
    doubly-linked list, ordered set, ordered multiset, hashed set, hashed
    multiset, ordered map, ordered multimap, hashed map, hashed multimap. *)
Definition registry : list debugger :=
  [debug_forward_list; debug_list; debug_set; debug_multiset;
   debug_unordered_set; debug_unordered_multiset; debug_map; debug_multimap;
   debug_unordered_map; debug_unordered_multimap].

(** The lines of a whole CodeGen run over the debuggers [ds]. *)
Definition section_lines (debug : debugger -> debug_result) (unit : string)
    (ds : list debugger) : list string :=
  [comment_line; begin_marker; EmptyString]
  ++ concat (map (fun d => block_lines unit (debug d)) ds)
  ++ [end_marker].

(** The claim of a second level of indentation: some line of the block is
    indented by two units. *)
Definition has_two_level_line (self : code_serializer.t)
    (result : debug_result) : Prop :=
  exists line,
    In line (lines (os_text (code_serializer.call self result
                               (fresh_stream EmptyString))))
    /\ leading_blanks line = code_serializer.tab self +:+ code_serializer.tab self.

(** ** Verbose output *)

(** The text of the verbose report of one result, with the rendering
    [field] of its two numbers left open. *)
Definition verbose_line (field : N -> string) (pair : N * N) : string :=
  String HT "With an alignment of " +:+ field pair.1
  +:+ " is the base node size " +:+ field pair.2 +:+ ".".

Definition verbose_report (field : N -> string) (result : debug_result)
    : string :=
  unlines (("For container '" +:+ container_name result +:+ "':")
           :: map (verbose_line field) (node_sizes result)).

(** The rendering the specification words describe: the decimal text
    followed by spaces up to a width of [w]. *)
Definition right_padded (w : nat) (n : N) : string :=
  dec n +:+ spaces (w - String.length (dec n)).

(** The rendering of the code: spaces up to a width of [w], followed by
    the decimal text. *)
Definition right_aligned (w : nat) (n : N) : string := pad_field w (dec n).

(** ** Dispatcher *)

(** The sequence of calls of one pass over the registry. *)
Definition full_pass (debug : debugger -> debug_result) : list invocation :=
  [invoke_prefix] ++ map (fun d => invoke_call (debug d)) registry
  ++ [invoke_suffix].

(** The first token selects Plain, Verbose or CodeGen mode. *)
Definition serializing_mode (argv : list string) : bool :=
  match argv with
  | _ :: argv1 :: _ =>
      String.eqb argv1 "--simple" || String.eqb argv1 "--verbose"
      || String.eqb argv1 "--code"
  | _ => true
  end.

Definition recognized (token : string) : bool :=
  String.eqb token "--simple" || String.eqb token "--verbose"
  || String.eqb token "--code" || String.eqb token "--help"
  || String.eqb token "--version".

Definition help_hint : string :=
  "Try '" +:+ exe_name +:+ " --help' for more information.".

Definition invalid_option_message (stripped : string) : string :=
  unlines [exe_name +:+ ": invalid option -- '" +:+ stripped +:+ "'";
           help_hint].

Definition invalid_argument_message (option : string) : string :=
  unlines [exe_name +:+ ": invalid argument for option -- '" +:+ option
             +:+ "'";
           help_hint].

(** Every file is as it was or empty. *)
Definition nothing_generated (before after : gmap string string) : Prop :=
  forall path : string,
    after !! path = before !! path \/ after !! path = Some EmptyString.

(** What the option loop may change: nothing on [std::cout], no
    serializer call, and files only by truncation. *)
Definition quiet (w w' : world) : Prop :=
  cout w' = cout w /\ invoked w' = invoked w
  /\ nothing_generated (files w) (files w').

(** The loop leaves [main] with status 2 after the invalid-argument
    diagnostic for [option]. *)
Definition rejects (option : string) (w : world) : scanned :=
  Returned 2 (set_cerr (print_invalid_argument (cerr w) option).2 w).

(** The loop either runs to the end, having left [std::cerr] alone, or
    returns 2 after one invalid-argument diagnostic. *)
Definition scan_outcome (w : world) (r : scanned) : Prop :=
  match r with
  | Scanned _ _ w' => quiet w w' /\ cerr w' = cerr w
  | Returned status w' =>
      status = 2%Z /\ quiet w w'
      /\ exists option,
           (option = "-t" \/ option = "outputfile" \/ option = "--code")
           /\ cerr w' = (print_invalid_argument (cerr w) option).2
  end.

(** ** Sample inputs *)

Definition list_8_16 : debug_result :=
  {| container_name := "list"; node_sizes := [(8, 16)] |}.

Definition sample_name (d : debugger) : string :=
  match d with
  | debug_forward_list => "forward_list"
  | debug_list => "list"
  | debug_set => "set"
  | debug_multiset => "multiset"
  | debug_unordered_set => "unordered_set"
  | debug_unordered_multiset => "unordered_multiset"
  | debug_map => "map"
  | debug_multimap => "multimap"
  | debug_unordered_map => "unordered_map"
  | debug_unordered_multimap => "unordered_multimap"
  end.

Definition sample_debug (d : debugger) : debug_result :=
  {| container_name := sample_name d;
     node_sizes := [(1, 8); (2, 8); (4, 8); (8, 16); (16, 16)] |}.

Definition sample_can_open (path : string) : bool :=
  negb (String.eqb path "/") && negb (String.eqb path EmptyString).

(** ** Reading reports back *)

Fixpoint all_chars (p : ascii -> bool) (s : string) : bool :=
  match s with
  | EmptyString => true
  | String c rest => p c && all_chars p rest
  end.

Fixpoint count_char (c : ascii) (s : string) : nat :=
  match s with
  | EmptyString => 0
  | String c' rest => ((if Ascii.eqb c' c then 1 else 0) + count_char c rest)%nat
  end.

(** The text before and after the first occurrence of [c]. *)
Fixpoint split_at (c : ascii) (s : string) : option (string * string) :=
  match s with
  | EmptyString => None
  | String c' rest =>
      if Ascii.eqb c' c then Some (EmptyString, rest)
      else match split_at c rest with
           | Some (before, after) => Some (String c' before, after)
           | None => None
           end
  end.

Fixpoint strip_prefix (p s : string) : option string :=
  match p, s with
  | EmptyString, _ => Some s
  | String a p, String b s => if Ascii.eqb a b then strip_prefix p s else None
  | String _ _, EmptyString => None
  end.

(** The longest prefix of decimal digits, and what follows it. *)
Fixpoint span_digits (s : string) : string * string :=
  match s with
  | String c rest =>
      if isdigit c
      then (String c (span_digits rest).1, (span_digits rest).2)
      else (EmptyString, s)
  | EmptyString => (EmptyString, EmptyString)
  end.

(** A number after optional blanks, and what follows it. *)
Definition read_field (s : string) : option (N * string) :=
  option_map (fun n => (n, (span_digits (drop_blanks s)).2))
    (read_dec (span_digits (drop_blanks s)).1).

(** One entry line of the Plain report. *)
Definition plain_line (pair : N * N) : string :=
  String HT EmptyString +:+ dec pair.1 +:+ "=" +:+ dec pair.2.

Definition plain_report (result : debug_result) : string :=
  unlines ((container_name result +:+ ":")
           :: map plain_line (node_sizes result)).

Definition read_plain_line (line : string) : option (N * N) :=
  match strip_prefix (String HT EmptyString) line with
  | Some entry =>
      match split_at "=" entry with
      | Some (alignment, size) =>
          match read_dec alignment, read_dec size with
          | Some a, Some s => Some (a, s)
          | _, _ => None
          end
      | None => None
      end
  | None => None
  end.

Definition read_verbose_line (line : string) : option (N * N) :=
  match strip_prefix (String HT "With an alignment of ") line with
  | Some s =>
      match read_field s with
      | Some (a, s) =>
          match strip_prefix " is the base node size " s with
          | Some s =>
              match read_field s with
              | Some (b, s) => if String.eqb s "." then Some (a, b) else None
              | None => None
              end
          | None => None
          end
      | None => None
      end
  | None => None
  end.

(** ** The options of [--code] *)

(** What the arguments after [--code] may hold: [-t] with its digit, or
    the path of the output file. *)
Inductive code_option :=
| opt_width (digit : N)
| opt_path (path : string).

Definition option_tokens (o : code_option) : list string :=
  match o with
  | opt_width digit => ["-t"; dec digit]
  | opt_path path => [path]
  end.

Definition options_tokens (os : list code_option) : list string :=
  concat (map option_tokens os).

(** The width in force after the options: the last one given. *)
Definition last_width (default : N) (os : list code_option) : N :=
  fold_left (fun width o => match o with
                            | opt_width digit => digit
                            | opt_path _ => width
                            end) os default.

Definition option_paths (os : list code_option) : list string :=
  concat (map (fun o => match o with
                        | opt_width _ => []
                        | opt_path path => [path]
                        end) os).

(** Widths are digits; paths are not [-t] and can be opened. *)
Definition option_ok (can_open : string -> bool) (o : code_option) : Prop :=
  match o with
  | opt_width digit => digit <= 9
  | opt_path path => path <> "-t" /\ can_open path = true
  end.

(** The text of a whole CodeGen run with indentation width [width]. *)
Definition code_text (debug : debugger -> debug_result) (width : N)
    : string :=
  unlines (section_lines debug
             (code_serializer.tab (code_serializer.Build width)) registry).

(** The world a successful CodeGen run leaves: the text in the file when
    one was named, on standard output otherwise. *)
Definition code_success (debug : debugger -> debug_result)
    (fs : gmap string string) (os : list code_option) : world :=
  let text := code_text debug (last_width 4 os) in
  match option_paths os with
  | path :: _ =>
      {| cout := fresh_stream EmptyString; cerr := fresh_stream EmptyString;
         files := <[path := text]> fs; invoked := full_pass debug |}
  | [] =>
      {| cout := fresh_stream text; cerr := fresh_stream EmptyString;
         files := fs; invoked := full_pass debug |}
  end.

Definition sum_counts (c : ascii) (ls : list string) : nat :=
  fold_right (fun l n => (count_char c l + n)%nat) 0%nat ls.

Definition is_bracket (c : ascii) : bool :=
  Ascii.eqb c "{" || Ascii.eqb c "}" || Ascii.eqb c "<" || Ascii.eqb c ">"
  || Ascii.eqb c "(" || Ascii.eqb c ")".

(** The reports of the registry entries, one after the other. *)
Definition registry_reports (report : debug_result -> string)
    (debug : debugger -> debug_result) : string :=
  fold_right (fun d text => report (debug d) +:+ text) EmptyString registry.

(** Whether [needle] occurs in [text]. *)
Fixpoint occurs (needle text : string) : bool :=
  match strip_prefix needle text with
  | Some _ => true
  | None =>
      match text with
      | String _ rest => occurs needle rest
      | EmptyString => false
      end
  end.

(** The stream a serializer leaves when its [prefix], then its
    function-call operator on the probe's result of each registry entry in
    registry order, then its [suffix] are applied to [out]. *)
Definition applied_in_order {S : Type} `{Serializer S} (serializer : S)
    (debug : debugger -> debug_result) (out : ostream) : ostream :=
  let out := prefix serializer out in
  let out := call serializer (debug debug_forward_list) out in
  let out := call serializer (debug debug_list) out in
  let out := call serializer (debug debug_set) out in
  let out := call serializer (debug debug_multiset) out in
  let out := call serializer (debug debug_unordered_set) out in
  let out := call serializer (debug debug_unordered_multiset) out in
  let out := call serializer (debug debug_map) out in
  let out := call serializer (debug debug_multimap) out in
  let out := call serializer (debug debug_unordered_map) out in
  let out := call serializer (debug debug_unordered_multimap) out in
  suffix serializer out.

(** Matching of the brackets of a text: [stack] holds the closing
    brackets still expected, innermost first. *)
Fixpoint check_brackets (stack : list ascii) (s : string)
    : option (list ascii) :=
  match s with
  | EmptyString => Some stack
  | String c rest =>
      if Ascii.eqb c "{" then check_brackets ("}"%char :: stack) rest
      else if Ascii.eqb c "<" then check_brackets (">"%char :: stack) rest
      else if Ascii.eqb c "(" then check_brackets (")"%char :: stack) rest
      else if Ascii.eqb c "}" || Ascii.eqb c ">" || Ascii.eqb c ")" then
        match stack with
        | expected :: stack =>
            if Ascii.eqb expected c then check_brackets stack rest else None
        | [] => None
        end
      else check_brackets stack rest
  end.

(** Every bracket is closed by its own kind, innermost first, and none is
    left open. *)
Definition balanced (s : string) : Prop := check_brackets [] s = Some [].

(** * Properties *)

(** ** Text *)

Section text_lemmas.

Lemma append_cons c (s t : string) : String c s +:+ t = String c (s +:+ t).
Proof. reflexivity. Qed.

Lemma append_empty_r (s : string) : s +:+ EmptyString = s.
Proof. induction s as [|c s IH]; [done|]. by rewrite append_cons, IH. Qed.

Lemma append_assoc (s t u : string) : (s +:+ t) +:+ u = s +:+ (t +:+ u).
Proof.
  induction s as [|c s IH]; [done|]. by rewrite !append_cons, IH.
Qed.

Lemma length_append (s t : string) :
  String.length (s +:+ t) = (String.length s + String.length t)%nat.
Proof.
  induction s as [|c s IH]; [done|]. rewrite append_cons. simpl. by rewrite IH.
Qed.

Lemma length_spaces n : String.length (spaces n) = n.
Proof. induction n as [|n IH]; simpl; [done|by rewrite IH]. Qed.

Lemma no_newline_append (s t : string) :
  no_newline (s +:+ t) = no_newline s && no_newline t.
Proof.
  induction s as [|c s IH]; [done|].
  rewrite append_cons. simpl. rewrite IH. by destruct (Ascii.eqb c NL).
Qed.

Lemma no_newline_spaces n : no_newline (spaces n) = true.
Proof. induction n as [|n IH]; [done|]. simpl. exact IH. Qed.

Lemma lines_line (l rest : string) :
  no_newline l = true -> lines (l +:+ String NL rest) = l :: lines rest.
Proof.
  induction l as [|c l IH]; intros Hl.
  - done.
  - simpl in Hl. apply andb_true_iff in Hl as [Hc Hl].
    rewrite append_cons. cbn [lines].
    destruct (Ascii.eqb c NL); [done|]. by rewrite (IH Hl).
Qed.

Lemma lines_unlines (ls : list string) :
  Forall (fun l => no_newline l = true) ls -> lines (unlines ls) = ls.
Proof.
  induction 1 as [|l ls Hl _ IH]; [done|].
  cbn [unlines fold_right]. rewrite (lines_line _ _ Hl). by f_equal.
Qed.

Lemma unlines_cons (l : string) (ls : list string) :
  unlines (l :: ls) = l +:+ (String NL EmptyString +:+ unlines ls).
Proof. reflexivity. Qed.

Lemma unlines_nil : unlines [] = EmptyString.
Proof. reflexivity. Qed.

Lemma unlines_app (ls ks : list string) :
  unlines (ls ++ ks) = unlines ls +:+ unlines ks.
Proof.
  induction ls as [|l ls IH]; [done|].
  cbn [app]. by rewrite !unlines_cons, IH, !append_assoc.
Qed.

Lemma count_lines_app p (ls ks : list string) :
  count_lines p (ls ++ ks) = (count_lines p ls + count_lines p ks)%nat.
Proof. induction ls as [|l ls IH]; cbn; [done|]. rewrite IH. lia. Qed.

Lemma count_lines_none p (ls : list string) :
  Forall (fun l => p l = false) ls -> count_lines p ls = 0%nat.
Proof. induction 1 as [|l ls Hl _ IH]; cbn; [done|]. by rewrite Hl, IH. Qed.

Lemma count_lines_concat {A} p (f : A -> list string) (k : nat)
    (xs : list A) :
  (forall x, count_lines p (f x) = k) ->
  count_lines p (concat (map f xs)) = (k * length xs)%nat.
Proof.
  intros Hf. induction xs as [|x xs IH]; cbn [map concat length count_lines]; [lia|].
  rewrite count_lines_app, Hf, IH. lia.
Qed.

Lemma all_blank_spaces n : all_blank (spaces n) = true.
Proof. induction n as [|n IH]; [done|]. exact IH. Qed.

Lemma drop_blanks_append (b s : string) :
  all_blank b = true -> drop_blanks (b +:+ s) = drop_blanks s.
Proof.
  induction b as [|c b IH]; [done|]. cbn [all_blank].
  intros [Hc Hb]%andb_true_iff. rewrite append_cons. cbn [drop_blanks].
  rewrite Hc. auto.
Qed.

Lemma leading_blanks_append (b s : string) :
  all_blank b = true -> leading_blanks (b +:+ s) = b +:+ leading_blanks s.
Proof.
  induction b as [|c b IH]; [done|]. cbn [all_blank].
  intros [Hc Hb]%andb_true_iff. rewrite !append_cons. cbn [leading_blanks].
  rewrite Hc. by rewrite IH.
Qed.

Lemma fold_left_step {A B : Type} (f : A -> B -> A) (x : B) (xs : list B)
    (a : A) :
  fold_left f (x :: xs) a = fold_left f xs (f a x).
Proof. reflexivity. Qed.

Lemma contains_intro (before needle after : string) :
  contains needle (before +:+ needle +:+ after).
Proof. by exists before, after. Qed.

End text_lemmas.

Ltac unlines_norm :=
  rewrite ?unlines_cons, ?unlines_nil, ?append_assoc, ?append_empty_r.

(** ** Insertions into a stream with no pending width *)

Section stream_lemmas.

Lemma insert_string_fresh (t s : string) :
  fresh_stream t << s = fresh_stream (t +:+ s).
Proof. reflexivity. Qed.

Lemma insert_char_fresh (t : string) (c : ascii) :
  fresh_stream t << c = fresh_stream (t +:+ String c EmptyString).
Proof. reflexivity. Qed.

Lemma insert_size_t_fresh (t : string) (n : N) :
  fresh_stream t << n = fresh_stream (t +:+ dec n).
Proof. reflexivity. Qed.

Lemma insert_setw_size_t_fresh (t : string) (w : nat) (n : N) :
  fresh_stream t << setw w << n = fresh_stream (t +:+ pad_field w (dec n)).
Proof. reflexivity. Qed.

End stream_lemmas.

Ltac stream_norm :=
  repeat first
    [ rewrite insert_setw_size_t_fresh
    | rewrite insert_string_fresh
    | rewrite insert_char_fresh
    | rewrite insert_size_t_fresh ];
  rewrite ?append_assoc.

(** ** Decimal text *)

Section dec_lemmas.

Lemma read_dec_dec (n : N) : read_dec (dec n) = Some n.
Proof.
  unfold read_dec, dec.
  rewrite <- (DecimalN.Unsigned.of_to n) at 2.
  destruct (N.to_uint n) as [|u|u|u|u|u|u|u|u|u|u] eqn:Hu; [reflexivity|..];
    rewrite NilZero.usu; done.
Qed.

Lemma no_newline_digits (u : Decimal.uint) :
  no_newline (NilEmpty.string_of_uint u) = true.
Proof. induction u; cbn; auto. Qed.

Lemma no_newline_dec (n : N) : no_newline (dec n) = true.
Proof.
  unfold dec, NilZero.string_of_uint.
  destruct (N.to_uint n) eqn:Hu; try reflexivity;
    rewrite <- Hu at 1; rewrite Hu; apply no_newline_digits.
Qed.

(** A property of the ten digits holds below 10. *)
Lemma digit_cases (P : N -> Prop) :
  Forall P (N.of_nat <$> seq 0 10) -> forall n : N, n <= 9 -> P n.
Proof.
  intros HP n Hn. apply (proj1 (Forall_forall _ _) HP).
  apply list_elem_of_fmap. exists (N.to_nat n). split; [lia|].
  apply elem_of_seq. lia.
Qed.

Lemma dec_one_digit (n : N) : n < 10 -> String.length (dec n) = 1%nat.
Proof.
  intros Hn. apply (digit_cases (fun k => String.length (dec k) = 1%nat));
    [by repeat constructor|lia].
Qed.

Lemma dec_two_digits (n : N) : 10 <= n -> (2 <= String.length (dec n))%nat.
Proof.
  intros Hn. rewrite <- (DecimalN.Unsigned.of_to n) in Hn.
  unfold dec, NilZero.string_of_uint.
  destruct (N.to_uint n) as [|u|u|u|u|u|u|u|u|u|u];
    try (cbn in Hn; lia);
    destruct u; cbn [NilEmpty.string_of_uint String.length];
    solve [lia | cbn in Hn; lia].
Qed.

Lemma pad_field_short (s : string) :
  String.length s = 1%nat -> pad_field 2 s = String " " s.
Proof. intros Hs. unfold pad_field. by rewrite Hs. Qed.

Lemma pad_field_wide (w : nat) (s : string) :
  (w <= String.length s)%nat -> pad_field w s = s.
Proof.
  intros Hs. unfold pad_field.
  by replace (w - String.length s)%nat with 0%nat by lia.
Qed.

End dec_lemmas.

(** ** Verbose mode *)

Section verbose_layout.

Lemma verbose_loop (sizes : list (N * N)) (t : string) :
  fold_left
    (fun out (pair : N * N) =>
       out << HT << "With an alignment of " << setw 2 << pair.1
           << " is the base node size " << setw 2 << pair.2
           << String "." (String NL EmptyString))
    sizes (fresh_stream t)
  = fresh_stream
      (t +:+ unlines (map (verbose_line (right_aligned 2)) sizes)).
Proof.
  revert t. induction sizes as [|pair sizes IH]; intros t.
  - cbn. by rewrite append_empty_r.
  - rewrite fold_left_step. cbn [map]. stream_norm. rewrite IH.
    unfold verbose_line, right_aligned. unlines_norm. reflexivity.
Qed.

Lemma verbose_call_fresh (result : debug_result) (t : string) :
  verbose_serializer.call verbose_serializer.Build result (fresh_stream t)
  = fresh_stream (t +:+ verbose_report (right_aligned 2) result).
Proof.
  unfold verbose_serializer.call. cbv zeta. stream_norm.
  rewrite verbose_loop. unfold verbose_report. unlines_norm. reflexivity.
Qed.

End verbose_layout.

(** C3, as amended: in Verbose mode the report of every result is its
    header line followed by one line per entry, in which the alignment and
    the base node size are each right-aligned in a field of two characters:
    a value below 10 is preceded by one space, a value of 10 or more is
    written in full with no padding, and the text written reads back as the
    value. *)
Theorem verbose_numbers_right_aligned :
  forall (result : debug_result) (t : string),
    os_text (verbose_serializer.call verbose_serializer.Build result
               (fresh_stream t))
    = t +:+ verbose_report (right_aligned 2) result
    /\ forall n : N,
         (n < 10 ->
          right_aligned 2 n = String " " (dec n)
          /\ String.length (right_aligned 2 n) = 2%nat)
         /\ (10 <= n -> right_aligned 2 n = dec n)
         /\ read_dec (dec n) = Some n.
Proof.
  intros result t. split.
  - by rewrite verbose_call_fresh.
  - intros n. unfold right_aligned. split; [|split].
    + intros Hn. rewrite pad_field_short by by apply dec_one_digit.
      split; [done|]. cbn. by rewrite dec_one_digit.
    + intros Hn. by apply pad_field_wide, dec_two_digits.
    + apply read_dec_dec.
Qed.

(** C3 as stated fails: the entry (8, 16) of a result is reported with the
    alignment written as a space followed by 8, not as 8 followed by a
    space. *)
Lemma verbose_numbers_not_right_padded :
  os_text (verbose_serializer.call verbose_serializer.Build list_8_16
             (fresh_stream EmptyString))
  <> verbose_report (right_padded 2) list_8_16
  /\ right_aligned 2 8 = String " " "8"
  /\ right_padded 2 8 = String "8" " ".
Proof.
  split; [|split]; [|reflexivity..].
  vm_compute. discriminate.
Qed.

(** ** CodeGen mode: one block *)

Section code_layout.

Variable self : code_serializer.t.
Variable result : debug_result.

Lemma code_loop (sizes : list (N * N)) (t : string) :
  fold_left
    (fun out (pair : N * N) =>
       out << String NL EmptyString
           << code_serializer.tab self << "template <>"
           << String NL EmptyString
           << code_serializer.tab self << "struct "
           << code_serializer.struct_name (container_name result)
           << "<"%char << pair.1 << ">"%char << String NL EmptyString
           << code_serializer.tab self
           << ": std::integral_constant<std::size_t, "
           << pair.2 << ">"%char << String NL EmptyString
           << code_serializer.tab self << "{};" << String NL EmptyString)
    sizes (fresh_stream t)
  = fresh_stream
      (t +:+ unlines
               (concat (map (specialization_lines (code_serializer.tab self)
                               (container_name result)) sizes))).
Proof.
  revert t. induction sizes as [|pair sizes IH]; intros t.
  - cbn. by rewrite append_empty_r.
  - rewrite fold_left_step. cbn [map concat]. stream_norm. rewrite IH.
    rewrite unlines_app. unfold code_serializer.struct_name.
    unfold specialization_lines. unlines_norm. reflexivity.
Qed.

Lemma code_call_fresh (t : string) :
  code_serializer.call self result (fresh_stream t)
  = fresh_stream
      (t +:+ unlines (block_lines (code_serializer.tab self) result)).
Proof.
  unfold code_serializer.call. cbv zeta. stream_norm.
  rewrite code_loop. stream_norm.
  unfold block_lines. rewrite !unlines_app.
  unfold code_serializer.struct_name, code_serializer.alignment.
  unfold block_head, block_tail. unlines_norm. reflexivity.
Qed.

End code_layout.

Section indentation.

(** What [tab] returns: a tab, or as many spaces as the width. *)
Lemma tab_zero :
  code_serializer.tab (code_serializer.Build 0) = String HT EmptyString.
Proof. reflexivity. Qed.

Lemma tab_positive (w : N) :
  1 <= w ->
  code_serializer.tab (code_serializer.Build w) = spaces (N.to_nat w).
Proof.
  intros Hw. unfold code_serializer.tab. cbn [code_serializer.tab_width].
  destruct (N.eqb_spec w 0); [lia|done].
Qed.

Lemma tab_shape (self : code_serializer.t) :
  exists c rest,
    code_serializer.tab self = String c rest
    /\ is_blank c = true /\ all_blank rest = true
    /\ no_newline (String c rest) = true.
Proof.
  destruct self as [w]. destruct (N.eqb_spec w 0) as [-> | Hw].
  - by exists HT, EmptyString.
  - rewrite tab_positive by lia.
    destruct (N.to_nat w) as [|n] eqn:Hn; [lia|].
    exists " "%char, (spaces n). cbn [spaces].
    repeat split; [apply all_blank_spaces|apply (no_newline_spaces (S n))].
Qed.

Lemma tab_all_blank (self : code_serializer.t) :
  all_blank (code_serializer.tab self) = true.
Proof.
  destruct (tab_shape self) as (c & rest & -> & Hc & Hrest & _).
  cbn. by rewrite Hc, Hrest.
Qed.

Lemma tab_no_newline (self : code_serializer.t) :
  no_newline (code_serializer.tab self) = true.
Proof. by destruct (tab_shape self) as (c & rest & -> & _ & _ & ?). Qed.

Lemma tab_length (self : code_serializer.t) :
  (1 <= String.length (code_serializer.tab self))%nat.
Proof.
  destruct (tab_shape self) as (c & rest & -> & _). cbn. lia.
Qed.

(** A property of every line of a block follows from the property on the
    four opening lines, on the five lines of each specialization and on
    the eight closing lines. *)
Lemma Forall_block_lines (P : string -> Prop) (unit : string)
    (result : debug_result) :
  Forall P (block_head unit (container_name result)) ->
  (forall pair,
      Forall P (specialization_lines unit (container_name result) pair)) ->
  Forall P (block_tail (container_name result)) ->
  Forall P (block_lines unit result).
Proof.
  intros Hhead Hspec Htail. unfold block_lines.
  apply Forall_app; split; [done|]. apply Forall_app; split; [|done].
  induction (node_sizes result) as [|pair sizes IH]; cbn [map concat];
    [constructor|].
  apply Forall_app; split; [apply Hspec|apply IH].
Qed.

Lemma block_lines_no_newline (unit : string) (result : debug_result) :
  no_newline unit = true ->
  no_newline (container_name result) = true ->
  Forall (fun l => no_newline l = true) (block_lines unit result).
Proof.
  intros Hunit Hname.
  apply Forall_block_lines; [|intros pair|];
    repeat constructor;
    rewrite ?no_newline_append, ?Hunit, ?Hname, ?no_newline_dec; reflexivity.
Qed.

Lemma code_call_lines (self : code_serializer.t) (result : debug_result) :
  no_newline (container_name result) = true ->
  lines (os_text (code_serializer.call self result
                    (fresh_stream EmptyString)))
  = block_lines (code_serializer.tab self) result.
Proof.
  intros Hname. rewrite code_call_fresh. cbn [os_text fresh_stream].
  apply lines_unlines, block_lines_no_newline; [apply tab_no_newline|done].
Qed.

(** The indentation of a line made of the unit and a text that starts with
    no blank. *)
Lemma leading_blanks_unit (self : code_serializer.t) (s : string) :
  leading_blanks s = EmptyString ->
  leading_blanks (code_serializer.tab self +:+ s) = code_serializer.tab self.
Proof.
  intros Hs. rewrite leading_blanks_append by apply tab_all_blank.
  by rewrite Hs, append_empty_r.
Qed.

Lemma block_lines_indentation (self : code_serializer.t)
    (result : debug_result) :
  let unit := code_serializer.tab self in
  let name := container_name result in
  map leading_blanks (block_head unit name)
  = [EmptyString; EmptyString; unit; unit]
  /\ (forall pair,
         map leading_blanks (specialization_lines unit name pair)
         = [EmptyString; unit; unit; unit; unit])
  /\ map leading_blanks (block_tail name)
     = [EmptyString; EmptyString; EmptyString; EmptyString; EmptyString;
        spaces 7; EmptyString; EmptyString].
Proof.
  cbv zeta. split; [|split]; [|intros pair|];
    cbn [map block_head specialization_lines block_tail];
    rewrite ?leading_blanks_unit by reflexivity; reflexivity.
Qed.

Lemma no_second_level (self : code_serializer.t) (result : debug_result) :
  Forall
    (fun line =>
       leading_blanks line
       <> code_serializer.tab self +:+ code_serializer.tab self)
    (block_lines (code_serializer.tab self) result).
Proof.
  pose proof (tab_length self) as Hlen.
  assert (forall s : string,
             (String.length s = 0 \/ String.length s = 7
              \/ String.length s = String.length (code_serializer.tab self))%nat ->
             s <> code_serializer.tab self +:+ code_serializer.tab self)
    as Hne.
  { intros s Hs ->. rewrite length_append in Hs. lia. }
  destruct (block_lines_indentation self result). 
  apply Forall_block_lines; [|intros pair|];
    repeat constructor; apply Hne;
    rewrite ?leading_blanks_unit by reflexivity; cbn; auto.
Qed.

End indentation.

(** C2, as amended: the indentation unit is one tab when W = 0 and W
    spaces when W is 1 or more; the block generated for a result has a
    single level of indentation: the two declaration lines and the four
    lines of every specialization inside the nested scope are indented by
    exactly one unit, the continuation line of the public abstraction by
    seven spaces whatever W is, every other line not at all, and no line
    is indented by two units. *)
Theorem code_indentation_single_level :
  forall (self : code_serializer.t) (result : debug_result),
    no_newline (container_name result) = true ->
    let unit := code_serializer.tab self in
    let name := container_name result in
    (code_serializer.tab_width self = 0 -> unit = String HT EmptyString)
    /\ (1 <= code_serializer.tab_width self ->
        unit = spaces (N.to_nat (code_serializer.tab_width self))
        /\ String.length unit = N.to_nat (code_serializer.tab_width self))
    /\ lines (os_text (code_serializer.call self result
                         (fresh_stream EmptyString)))
       = block_lines unit result
    /\ map leading_blanks (block_head unit name)
       = [EmptyString; EmptyString; unit; unit]
    /\ (forall pair,
           map leading_blanks (specialization_lines unit name pair)
           = [EmptyString; unit; unit; unit; unit])
    /\ map leading_blanks (block_tail name)
       = [EmptyString; EmptyString; EmptyString; EmptyString; EmptyString;
          spaces 7; EmptyString; EmptyString]
    /\ Forall (fun line => leading_blanks line <> unit +:+ unit)
         (block_lines unit result).
Proof.
  intros self result Hname. cbv zeta.
  destruct (block_lines_indentation self result) as (Hhead & Hspec & Htail).
  split; [|split; [|split; [|split; [|split; [|split]]]]].
  - destruct self as [w]. cbn [code_serializer.tab_width]. intros ->.
    apply tab_zero.
  - destruct self as [w]. cbn [code_serializer.tab_width]. intros Hw.
    rewrite tab_positive by done. split; [done|apply length_spaces].
  - by apply code_call_lines.
  - exact Hhead.
  - exact Hspec.
  - exact Htail.
  - apply no_second_level.
Qed.

Lemma code_indentation_single_level_witness :
  no_newline (container_name list_8_16) = true
  /\ lines (os_text (code_serializer.call (code_serializer.Build 5) list_8_16
                       (fresh_stream EmptyString)))
     = block_lines (spaces 5) list_8_16.
Proof.
  split; [reflexivity|].
  apply (code_indentation_single_level (code_serializer.Build 5) list_8_16).
  reflexivity.
Defined.

(** C2 as stated fails: with W = 0 and with W = 5, the block generated
    for a result with one entry has no line indented by two units. *)
Lemma code_indentation_no_two_level_line :
  ~ has_two_level_line (code_serializer.Build 0) list_8_16
  /\ ~ has_two_level_line (code_serializer.Build 5) list_8_16.
Proof.
  split; intros (line & Hin & Hline);
    rewrite code_call_lines in Hin by reflexivity;
    apply list_elem_of_In in Hin;
    by apply (proj1 (Forall_forall _ _) (no_second_level _ list_8_16)) in Hin.
Qed.

Section specializations.

Variable self : code_serializer.t.
Variable result : debug_result.

Lemma head_opens_nothing :
  count_lines opens_specialization
    (block_head (code_serializer.tab self) (container_name result)) = 0%nat.
Proof.
  apply count_lines_none. repeat constructor; unfold opens_specialization;
    rewrite ?(drop_blanks_append (code_serializer.tab self))
      by apply tab_all_blank;
    reflexivity.
Qed.

Lemma tail_opens_nothing :
  count_lines opens_specialization (block_tail (container_name result))
  = 0%nat.
Proof.
  apply count_lines_none. repeat constructor; reflexivity.
Qed.

Lemma specialization_opens_once (pair : N * N) :
  count_lines opens_specialization
    (specialization_lines (code_serializer.tab self) (container_name result)
       pair) = 1%nat.
Proof.
  cbn [specialization_lines count_lines]. unfold opens_specialization.
  rewrite !(drop_blanks_append (code_serializer.tab self))
    by apply tab_all_blank.
  reflexivity.
Qed.

Lemma block_opens :
  count_lines opens_specialization
    (block_lines (code_serializer.tab self) result)
  = length (node_sizes result).
Proof.
  unfold block_lines. rewrite !count_lines_app.
  rewrite head_opens_nothing, tail_opens_nothing.
  rewrite (count_lines_concat _ _ 1%nat) by apply specialization_opens_once.
  lia.
Qed.

End specializations.

(** C6: the block generated for a result is its four opening lines, then
    for each entry of the result, in the order of the entries, one explicit
    specialization (a blank line and four lines binding the decimal text of
    the alignment to an integral constant that is the decimal text of the
    base node size), then its eight closing lines; the number of
    specializations is the number of entries, and the decimal texts read
    back as the values. *)
Theorem code_block_specializations :
  forall (self : code_serializer.t) (result : debug_result),
    no_newline (container_name result) = true ->
    let unit := code_serializer.tab self in
    let name := container_name result in
    (forall t : string,
        os_text (code_serializer.call self result (fresh_stream t))
        = t +:+ unlines
                  (block_head unit name
                   ++ concat (map (specialization_lines unit name)
                                (node_sizes result))
                   ++ block_tail name))
    /\ count_lines opens_specialization
         (lines (os_text (code_serializer.call self result
                            (fresh_stream EmptyString))))
       = length (node_sizes result)
    /\ (forall alignment size : N,
           specialization_lines unit name (alignment, size)
           = [ EmptyString;
               unit +:+ "template <>";
               unit +:+ "struct " +:+ name +:+ "_node_size<"
                 +:+ dec alignment +:+ ">";
               unit +:+ ": std::integral_constant<std::size_t, "
                 +:+ dec size +:+ ">";
               unit +:+ "{};" ])
    /\ (forall n : N, read_dec (dec n) = Some n).
Proof.
  intros self result Hname. cbv zeta. split; [|split; [|split]].
  - intros t. by rewrite code_call_fresh.
  - rewrite code_call_lines by done. apply block_opens.
  - reflexivity.
  - apply read_dec_dec.
Qed.

Lemma code_block_specializations_witness :
  no_newline (container_name (sample_debug debug_map)) = true
  /\ count_lines opens_specialization
       (lines (os_text (code_serializer.call (code_serializer.Build 4)
                          (sample_debug debug_map)
                          (fresh_stream EmptyString))))
     = 5%nat.
Proof.
  split; [reflexivity|].
  apply (code_block_specializations (code_serializer.Build 4)
           (sample_debug debug_map)).
  reflexivity.
Defined.

(** ** The pass over the registry *)

Section pass_lemmas.

Variable debug : debugger -> debug_result.

Lemma registry_is_debuggers : registry = debuggers.
Proof. reflexivity. Qed.

Lemma serialize_impl_spec {S : Type} `{Serializer S} (serializer : S)
    (ds : list debugger) (p : pass) :
  serialize_impl debug serializer ds p
  = {| pass_out :=
         fold_left (fun out d => call serializer (debug d) out) ds
           (pass_out p);
       pass_log := pass_log p ++ map (fun d => invoke_call (debug d)) ds |}.
Proof.
  unfold serialize_impl. revert p.
  induction ds as [|d ds IH]; intros [out log].
  - cbn. by rewrite app_nil_r.
  - rewrite fold_left_step. cbn [map]. rewrite IH.
    cbn [run_call pass_out pass_log]. by rewrite <- app_assoc.
Qed.

Lemma serialize_spec {S : Type} `{Serializer S} (serializer : S) (p : pass) :
  serialize debug serializer p
  = {| pass_out :=
         suffix serializer
           (fold_left (fun out d => call serializer (debug d) out) registry
              (prefix serializer (pass_out p)));
       pass_log := pass_log p ++ full_pass debug |}.
Proof.
  unfold serialize. cbv zeta. rewrite serialize_impl_spec.
  unfold run_suffix, run_prefix, full_pass. cbn [pass_out pass_log].
  rewrite registry_is_debuggers. f_equal. by rewrite <- !app_assoc.
Qed.

Lemma code_blocks_direct (self : code_serializer.t) (ds : list debugger)
    (t : string) :
  fold_left (fun out d => code_serializer.call self (debug d) out) ds
    (fresh_stream t)
  = fresh_stream
      (t +:+ unlines
               (concat (map (fun d => block_lines (code_serializer.tab self)
                                        (debug d)) ds))).
Proof.
  revert t. induction ds as [|d ds IH]; intros t.
  - cbn [fold_left map concat]. by rewrite unlines_nil, append_empty_r.
  - rewrite fold_left_step. cbn [map concat].
    rewrite code_call_fresh, IH, unlines_app. by rewrite append_assoc.
Qed.

Lemma code_blocks (self : code_serializer.t) (ds : list debugger)
    (t : string) :
  fold_left (fun out d => call self (debug d) out) ds (fresh_stream t)
  = fresh_stream
      (t +:+ unlines
               (concat (map (fun d => block_lines (code_serializer.tab self)
                                        (debug d)) ds))).
Proof. exact (code_blocks_direct self ds t). Qed.

Lemma code_serialize_text (self : code_serializer.t) (t : string)
    (log : list invocation) :
  pass_out (serialize debug self
              {| pass_out := fresh_stream t; pass_log := log |})
  = fresh_stream
      (t +:+ unlines (section_lines debug (code_serializer.tab self)
                        registry)).
Proof.
  rewrite serialize_spec. cbn [pass_out prefix suffix code_Serializer].
  unfold code_serializer.prefix. cbv zeta. stream_norm.
  rewrite code_blocks. unfold code_serializer.suffix. stream_norm.
  unfold section_lines, comment_line, begin_marker, end_marker.
  rewrite !unlines_app. unlines_norm. reflexivity.
Qed.

(** No line of a block starts like a marker. *)
Lemma blank_is_no_slash (c : ascii) :
  is_blank c = true -> Ascii.eqb c "/" = false.
Proof.
  unfold is_blank. intros [Hc | Hc]%orb_true_iff;
    apply Ascii.eqb_eq in Hc; by subst.
Qed.

Lemma block_lines_no_slash (self : code_serializer.t)
    (result : debug_result) :
  Forall (fun l => starts_with "/" l = false)
    (block_lines (code_serializer.tab self) result).
Proof.
  destruct (tab_shape self) as (c & rest & -> & Hc%blank_is_no_slash & _).
  apply Forall_block_lines; [|intros pair|];
    repeat constructor; rewrite ?append_cons; cbn [starts_with]; done.
Qed.

Lemma marker_is_no_line (marker : string) (ls : list string) :
  starts_with "/" marker = true ->
  Forall (fun l => starts_with "/" l = false) ls ->
  count_lines (String.eqb marker) ls = 0%nat.
Proof.
  intros Hmarker Hls. apply count_lines_none.
  eapply Forall_impl; [exact Hls|]. intros l Hl. cbv beta in *.
  apply String.eqb_neq. intros <-. congruence.
Qed.

Lemma section_lines_markers (self : code_serializer.t) (marker : string) :
  starts_with "/" marker = true ->
  count_lines (String.eqb marker)
    (section_lines debug (code_serializer.tab self) registry)
  = ((if String.eqb marker comment_line then 1 else 0)
     + (if String.eqb marker begin_marker then 1 else 0)
     + (if String.eqb marker end_marker then 1 else 0))%nat.
Proof.
  intros Hmarker. unfold section_lines. rewrite !count_lines_app.
  rewrite (count_lines_concat _ _ 0%nat)
    by (intros d; apply marker_is_no_line, block_lines_no_slash; done).
  cbn [count_lines]. destruct marker; [done|]. cbn [String.eqb]. lia.
Qed.

Lemma section_lines_no_newline (self : code_serializer.t) :
  (forall d, no_newline (container_name (debug d)) = true) ->
  Forall (fun l => no_newline l = true)
    (section_lines debug (code_serializer.tab self) registry).
Proof.
  intros Hnames. unfold section_lines.
  apply Forall_app; split; [by repeat constructor|].
  apply Forall_app; split; [|by repeat constructor].
  induction registry as [|d ds IH]; cbn [map concat]; [constructor|].
  apply Forall_app; split; [|exact IH].
  apply block_lines_no_newline; [apply tab_no_newline|apply Hnames].
Qed.

End pass_lemmas.

(** ** The option loop of the [--code] branch *)

Section scan_lemmas.

Variable can_open : string -> bool.

Lemma quiet_refl (w : world) : quiet w w.
Proof. repeat split. by left. Qed.

Lemma quiet_trans (w1 w2 w3 : world) : quiet w1 w2 -> quiet w2 w3 -> quiet w1 w3.
Proof.
  intros (Hc1 & Hi1 & Hf1) (Hc2 & Hi2 & Hf2). repeat split; [congruence..|].
  intros path. destruct (Hf2 path) as [-> | ->]; [apply Hf1|by right].
Qed.

Lemma quiet_set_file (path : string) (w : world) :
  quiet w (set_file path EmptyString w).
Proof.
  repeat split. intros path'. cbn [files set_file].
  destruct (decide (path = path')) as [-> | Hne].
  - right. apply lookup_insert_eq.
  - left. by apply lookup_insert_ne.
Qed.

Lemma quiet_set_cerr (err : ostream) (w : world) : quiet w (set_cerr err w).
Proof. repeat split. by left. Qed.

Lemma scan_options_nil tab_width file w :
  scan_options can_open [] tab_width file w = Scanned tab_width file w.
Proof. reflexivity. Qed.

Lemma scan_options_t_end tab_width file w :
  scan_options can_open ["-t"] tab_width file w = rejects "-t" w.
Proof. reflexivity. Qed.

Lemma scan_options_t (digit : string) (cur : list string) tab_width file w :
  scan_options can_open ("-t" :: digit :: cur) tab_width file w
  = if isdigit (c_index digit 0) && Ascii.eqb (c_index digit 1) "000"
    then scan_options can_open cur
           (N_of_ascii (c_index digit 0) - N_of_ascii "0") file w
    else rejects "-t" w.
Proof. reflexivity. Qed.

Lemma scan_options_path (arg : string) (cur : list string) tab_width file w :
  arg <> "-t" ->
  scan_options can_open (arg :: cur) tab_width file w
  = match file with
    | None =>
        if can_open arg
        then scan_options can_open cur tab_width (Some arg)
               (set_file arg EmptyString w)
        else rejects "outputfile" w
    | Some _ => rejects "--code" w
    end.
Proof.
  intros Harg%String.eqb_neq. cbn [scan_options]. rewrite Harg.
  destruct file; [reflexivity|]. by destruct (can_open arg).
Qed.

(** Induction over the option list, two tokens at a time. *)
Lemma option_list_ind (P : list string -> Prop) :
  P [] ->
  (forall a, P [a]) ->
  (forall a b cur, P cur -> P (b :: cur) -> P (a :: b :: cur)) ->
  forall cur, P cur.
Proof.
  intros Hnil Hone Hstep cur.
  assert (P cur /\ forall a, P (a :: cur)) as [? _]; [|done].
  induction cur as [|b cur [IH1 IH2]]; [by split|].
  split; [apply IH2|]. intros a. by apply Hstep.
Qed.

Lemma rejects_outcome (option : string) (w : world) :
  option = "-t" \/ option = "outputfile" \/ option = "--code" ->
  scan_outcome w (rejects option w).
Proof.
  intros Hoption. split; [done|]. split; [apply quiet_set_cerr|].
  by exists option.
Qed.

Lemma scan_outcome_step (w1 w2 : world) (r : scanned) :
  quiet w1 w2 -> cerr w2 = cerr w1 -> scan_outcome w2 r -> scan_outcome w1 r.
Proof.
  intros Hq Herr. destruct r as [tw f w'|status w']; cbn [scan_outcome].
  - intros [Hq' Herr']. split; [by eapply quiet_trans|congruence].
  - intros (Hst & Hq' & option & Hoption & Herr').
    split; [done|]. split; [by eapply quiet_trans|].
    exists option. split; [done|]. by rewrite Herr', Herr.
Qed.

Lemma scan_options_outcome (cur : list string) :
  forall tab_width file w,
    scan_outcome w (scan_options can_open cur tab_width file w).
Proof.
  induction cur as [|a|a b cur IH1 IH2] using option_list_ind;
    intros tab_width file w.
  - split; [apply quiet_refl|done].
  - destruct (decide (a = "-t")) as [-> | Ha].
    + rewrite scan_options_t_end. apply rejects_outcome. auto.
    + rewrite scan_options_path by done.
      destruct file; [apply rejects_outcome; auto|].
      destruct (can_open a); [|apply rejects_outcome; auto].
      split; [apply quiet_set_file|done].
  - destruct (decide (a = "-t")) as [-> | Ha].
    + rewrite scan_options_t.
      destruct (_ && _); [apply IH1|apply rejects_outcome; auto].
    + rewrite scan_options_path by done.
      destruct file; [apply rejects_outcome; auto|].
      destruct (can_open a); [|apply rejects_outcome; auto].
      eapply scan_outcome_step; [apply quiet_set_file|reflexivity|apply IH2].
Qed.

(** Scanning a list that starts with options scanned to the end goes on
    from the state they leave. *)
Lemma scan_options_app (pre : list string) :
  forall (suf : list string) tab_width0 file0 w0 tab_width file w,
    scan_options can_open pre tab_width0 file0 w0 = Scanned tab_width file w ->
    scan_options can_open (pre ++ suf) tab_width0 file0 w0
    = scan_options can_open suf tab_width file w.
Proof.
  induction pre as [|a|a b pre IH1 IH2] using option_list_ind;
    intros suf tab_width0 file0 w0 tab_width file w.
  - rewrite scan_options_nil. by intros [= -> -> ->].
  - destruct (decide (a = "-t")) as [-> | Ha].
    + by rewrite scan_options_t_end.
    + cbn [app]. rewrite (scan_options_path a []) by done.
      rewrite (scan_options_path a suf) by done.
      destruct file0; [done|]. destruct (can_open a); [|done].
      rewrite scan_options_nil. by intros [= -> -> ->].
  - destruct (decide (a = "-t")) as [-> | Ha].
    + cbn [app]. rewrite !scan_options_t.
      destruct (_ && _); [apply IH1|done].
    + change ((a :: b :: pre) ++ suf) with (a :: (b :: pre) ++ suf).
      rewrite (scan_options_path a (b :: pre)) by done.
      rewrite (scan_options_path a ((b :: pre) ++ suf)) by done.
      destruct file0; [done|]. destruct (can_open a); [|done]. apply IH2.
Qed.

(** The test on the token after [-t]. *)
Lemma digit_accepted (n : N) :
  n <= 9 ->
  isdigit (c_index (dec n) 0) && Ascii.eqb (c_index (dec n) 1) "000" = true
  /\ N_of_ascii (c_index (dec n) 0) - N_of_ascii "0" = n.
Proof.
  apply (digit_cases
           (fun k =>
              isdigit (c_index (dec k) 0)
              && Ascii.eqb (c_index (dec k) 1) "000" = true
              /\ N_of_ascii (c_index (dec k) 0) - N_of_ascii "0" = k)).
  by repeat constructor.
Qed.

Lemma isdigit_dec (c : ascii) :
  isdigit c = true -> exists n, n <= 9 /\ String c EmptyString = dec n.
Proof.
  unfold isdigit. intros [Hlo Hhi]%andb_true_iff.
  apply N.leb_le in Hlo, Hhi. change (N_of_ascii "0") with 48 in Hlo.
  change (N_of_ascii "9") with 57 in Hhi.
  exists (N_of_ascii c - 48). split; [lia|].
  rewrite <- (ascii_N_embedding c) at 1.
  replace (N_of_ascii c) with (48 + (N_of_ascii c - 48)) at 1 by lia.
  apply (digit_cases
           (fun k => String (ascii_of_N (48 + k)) EmptyString = dec k));
    [by repeat constructor|lia].
Qed.

Lemma digit_rejected (token : string) :
  c_string token = true ->
  ~ single_decimal_digit token ->
  isdigit (c_index token 0) && Ascii.eqb (c_index token 1) "000" = false.
Proof.
  intros Hc Hno. apply not_true_iff_false.
  intros [Hdigit Hend]%andb_true_iff. apply Hno.
  destruct token as [|c [|c' rest]]; [done| |].
  - by apply isdigit_dec.
  - cbn in Hend, Hc. rewrite Hend in Hc. cbn in Hc.
    by rewrite andb_false_r in Hc.
Qed.

End scan_lemmas.

(** ** main *)

Section main_lemmas.

Variable debug : debugger -> debug_result.
Variable VERSION : string.
Variable can_open : string -> bool.

Lemma main_code (argv0 : string) (rest : list string) (w : world) :
  main debug VERSION can_open (argv0 :: "--code" :: rest) w
  = match scan_options can_open rest 4 None w with
    | Returned status w => (status, w)
    | Scanned tab_width file w =>
        (0%Z, serialize_out debug (code_serializer.Build tab_width) file w)
    end.
Proof. reflexivity. Qed.

Lemma main_unrecognized (argv0 token : string) (rest : list string)
    (w : world) :
  recognized token = false ->
  main debug VERSION can_open (argv0 :: token :: rest) w
  = fail_with (fun err => print_invalid_option err token) w.
Proof.
  unfold recognized. rewrite !orb_false_iff.
  intros [[[[Hs Hv] Hc] Hh] Hn]. unfold main. by rewrite Hs, Hv, Hc, Hh, Hn.
Qed.

Lemma invalid_argument_text (option : string) :
  (print_invalid_argument (fresh_stream EmptyString) option).2
  = fresh_stream (invalid_argument_message option).
Proof.
  unfold print_invalid_argument. cbv zeta. cbn [snd]. stream_norm.
  unfold invalid_argument_message, help_hint. unlines_norm. reflexivity.
Qed.

Lemma invalid_option_text (token : string) :
  print_invalid_option (fresh_stream EmptyString) token
  = (2%Z, fresh_stream (invalid_option_message (skip_dashes token))).
Proof.
  unfold print_invalid_option. cbv zeta. stream_norm.
  unfold invalid_option_message, help_hint. unlines_norm. reflexivity.
Qed.

Lemma skip_dashes_other (c : ascii) (rest : string) :
  c <> "-"%char -> skip_dashes (String c rest) = String c rest.
Proof.
  intros Hc.
  destruct c as [[] [] [] [] [] [] [] []]; try reflexivity. by destruct Hc.
Qed.

Lemma skip_dashes_spec (token : string) :
  (exists n, token = dashes n +:+ skip_dashes token)
  /\ starts_with "-" (skip_dashes token) = false.
Proof.
  induction token as [|c rest [[n IHn] IH]].
  - split; [by exists 0%nat|done].
  - destruct (Ascii.eqb_spec c "-") as [-> | Hc].
    + split; [|exact IH]. exists (S n). cbn [dashes skip_dashes].
      rewrite append_cons. by f_equal.
    + rewrite skip_dashes_other by done. split; [by exists 0%nat|].
      cbn. by apply Ascii.eqb_neq.
Qed.

Lemma invoked_serialize_cout {S : Type} `{Serializer S} (serializer : S)
    (w : world) :
  invoked (serialize_cout debug serializer w) = invoked w ++ full_pass debug.
Proof. unfold serialize_cout. cbv zeta. by rewrite serialize_spec. Qed.

Lemma invoked_serialize_out {S : Type} `{Serializer S} (serializer : S)
    (file : option string) (w : world) :
  invoked (serialize_out debug serializer file w)
  = invoked w ++ full_pass debug.
Proof.
  unfold serialize_out. destruct file; cbv zeta; by rewrite serialize_spec.
Qed.

Lemma applied_in_order_fold {S : Type} `{Serializer S} (serializer : S)
    (out : ostream) :
  applied_in_order serializer debug out
  = suffix serializer
      (fold_left (fun out d => call serializer (debug d) out) registry
         (prefix serializer out)).
Proof. reflexivity. Qed.

Lemma serialize_cout_applied {S : Type} `{Serializer S} (serializer : S)
    (fs : gmap string string) :
  serialize_cout debug serializer (initial_world fs)
  = {| cout := applied_in_order serializer debug (fresh_stream EmptyString);
       cerr := fresh_stream EmptyString;
       files := fs;
       invoked := full_pass debug |}.
Proof.
  unfold serialize_cout. cbv zeta. rewrite serialize_spec.
  by rewrite applied_in_order_fold.
Qed.

Lemma code_applied (width : N) :
  applied_in_order (code_serializer.Build width) debug
    (fresh_stream EmptyString)
  = fresh_stream
      (unlines (section_lines debug
                  (code_serializer.tab (code_serializer.Build width))
                  registry)).
Proof.
  pose proof (code_serialize_text debug (code_serializer.Build width)
                EmptyString []) as Htext.
  rewrite serialize_spec in Htext. cbn [pass_out] in Htext.
  by rewrite applied_in_order_fold, Htext.
Qed.

(** The files after options scanned to the end: as before, but for the
    file opened, which is empty. *)
Lemma scan_options_files (cur : list string) :
  forall tab_width file w tab_width' file' w',
    scan_options can_open cur tab_width file w
    = Scanned tab_width' file' w' ->
    match file, file' with
    | Some path, _ => file' = Some path /\ files w' = files w
    | None, None => files w' = files w
    | None, Some path => files w' = <[path := EmptyString]> (files w)
    end.
Proof.
  induction cur as [|a|a b cur IH1 IH2] using option_list_ind;
    intros tab_width file w tab_width' file' w'.
  - rewrite scan_options_nil. intros [= _ <- <-]. by destruct file.
  - destruct (decide (a = "-t")) as [-> | Ha];
      [by rewrite scan_options_t_end|].
    rewrite scan_options_path by done.
    destruct file; [done|]. destruct (can_open a); [|done].
    rewrite scan_options_nil. by intros [= _ <- <-].
  - destruct (decide (a = "-t")) as [-> | Ha].
    + rewrite scan_options_t. destruct (_ && _); [apply IH1|done].
    + rewrite scan_options_path by done.
      destruct file; [done|]. destruct (can_open a); [|done].
      intros Hscan. apply IH2 in Hscan as [-> Hfiles]. exact Hfiles.
Qed.

(** C1: whenever the first token selects Plain, Verbose or CodeGen mode
    and the run succeeds, the calls made on the serializer are [prefix]
    once, then the function-call operator once per registry entry on the
    probe's result, in the order forward_list, list, set, multiset,
    unordered_set, unordered_multiset, map, multimap, unordered_map,
    unordered_multimap, then [suffix] once; and the run leaves what the
    methods of the active serializer write when applied in this order:
    those of the simple serializer on standard output in Plain mode, those
    of the verbose serializer in Verbose mode, and in CodeGen mode those of
    the code serializer with the width scanned, on standard output or in
    the file the options name. On every serializer the stream that
    [serialize] leaves is the one these calls produce in that order. *)
Theorem dispatcher_pass_order :
  forall (argv : list string) (fs : gmap string string),
    serializing_mode argv = true ->
    (main debug VERSION can_open argv (initial_world fs)).1 = 0%Z ->
    let run := main debug VERSION can_open argv (initial_world fs) in
    let ran {S : Type} `{Serializer S} (serializer : S) :=
      {| cout := applied_in_order serializer debug (fresh_stream EmptyString);
         cerr := fresh_stream EmptyString;
         files := fs;
         invoked := full_pass debug |} in
    (invoked run.2
     = [ invoke_prefix;
         invoke_call (debug debug_forward_list);
         invoke_call (debug debug_list);
         invoke_call (debug debug_set);
         invoke_call (debug debug_multiset);
         invoke_call (debug debug_unordered_set);
         invoke_call (debug debug_unordered_multiset);
         invoke_call (debug debug_map);
         invoke_call (debug debug_multimap);
         invoke_call (debug debug_unordered_map);
         invoke_call (debug debug_unordered_multimap);
         invoke_suffix ]
     /\ forall (S : Type) (HS : Serializer S) (serializer : S) (p : pass),
          pass_log (serialize debug serializer p)
          = pass_log p ++ full_pass debug
          /\ pass_out (serialize debug serializer p)
             = suffix serializer
                 (fold_left (fun out d => call serializer (debug d) out)
                    registry (prefix serializer (pass_out p))))
    /\ (argv !! 1%nat = None \/ argv !! 1%nat = Some "--simple" ->
        run.2 = ran simple_serializer.Build)
    /\ (argv !! 1%nat = Some "--verbose" ->
        run.2 = ran verbose_serializer.Build)
    /\ (argv !! 1%nat = Some "--code" ->
        (exists tab_width file w,
            scan_options can_open (drop 2 argv) 4 None (initial_world fs)
            = Scanned tab_width file w)
        /\ forall tab_width file w,
             scan_options can_open (drop 2 argv) 4 None (initial_world fs)
             = Scanned tab_width file w ->
             let generated :=
               applied_in_order (code_serializer.Build tab_width) debug
                 (fresh_stream EmptyString) in
             cerr run.2 = fresh_stream EmptyString
             /\ match file with
                | None => cout run.2 = generated /\ files run.2 = fs
                | Some path =>
                    cout run.2 = fresh_stream EmptyString
                    /\ files run.2 = <[path := os_text generated]> fs
                end).
Proof.
  intros argv fs Hmode Hstatus. cbv zeta. split; [split|].
  - destruct argv as [|argv0 [|argv1 rest]];
      [apply (invoked_serialize_cout simple_serializer.Build)..|].
    cbn [serializing_mode] in Hmode.
    destruct (String.eqb_spec argv1 "--simple") as [-> | _];
      [apply (invoked_serialize_cout simple_serializer.Build)|].
    destruct (String.eqb_spec argv1 "--verbose") as [-> | _];
      [apply (invoked_serialize_cout verbose_serializer.Build)|].
    destruct (String.eqb_spec argv1 "--code") as [-> | _]; [|done].
    rewrite main_code in *.
    pose proof (scan_options_outcome can_open rest 4 None (initial_world fs))
      as Hscan.
    destruct (scan_options _ _ _ _ _) as [tw file w | status w];
      cbn [scan_outcome] in Hscan.
    + destruct Hscan as [(_ & Hlog & _) _]. cbn [snd].
      by rewrite invoked_serialize_out, Hlog.
    + destruct Hscan as [-> _]. done.
  - intros S HS serializer p. by rewrite serialize_spec.
  - split; [|split].
    + destruct argv as [|argv0 [|argv1 rest]];
        [intros _; apply (serialize_cout_applied simple_serializer.Build)..|].
      intros [[=] | [= ->]].
      apply (serialize_cout_applied simple_serializer.Build).
    + destruct argv as [|argv0 [|argv1 rest]]; [done..|]. intros [= ->].
      apply (serialize_cout_applied verbose_serializer.Build).
    + destruct argv as [|argv0 [|argv1 rest]]; [done..|]. intros [= ->].
      change (drop 2 (argv0 :: "--code" :: rest)) with rest.
      rewrite main_code in *.
      pose proof (scan_options_outcome can_open rest 4 None
                    (initial_world fs)) as Hout.
      destruct (scan_options can_open rest 4 None (initial_world fs))
        as [tw file w | status w] eqn:Hscan; cbn [scan_outcome] in Hout.
      2: { destruct Hout as [-> _]. done. }
      split; [by exists tw, file, w|].
      intros tw' file' w' [= <- <- <-].
      destruct Hout as [(Hcout & Hlog & _) Herr].
      apply scan_options_files in Hscan. rewrite code_applied.
      cbn [snd initial_world cout cerr files] in *.
      unfold serialize_out. destruct file as [path|].
      * cbn [files set_file set_invoked cerr cout]. rewrite !Hscan.
        rewrite lookup_total_insert_eq, code_serialize_text.
        cbn [os_text fresh_stream].
        by rewrite insert_insert_eq, Herr, Hcout.
      * cbn [files set_cout set_invoked cerr cout].
        rewrite Hcout, code_serialize_text. cbn [os_text fresh_stream os_width].
        by rewrite Herr, Hscan.
Qed.

(** C5: the text of a CodeGen run is the identifying comment line, the
    BEGIN marker line and a blank line (written by [prefix]), then the
    block of each registry entry in registry order, then the END marker
    line (written by [suffix]); each marker line occurs exactly once, and
    no block holds one. With [--code] alone this text goes to standard
    output, indented by four spaces. *)
Theorem code_section_markers :
  forall (self : code_serializer.t),
    (forall d, no_newline (container_name (debug d)) = true) ->
    let text :=
      os_text (pass_out (serialize debug self
                           {| pass_out := fresh_stream EmptyString;
                              pass_log := [] |})) in
    let block d := block_lines (code_serializer.tab self) (debug d) in
    lines text
    = [comment_line; begin_marker; EmptyString]
      ++ concat (map block
                   [debug_forward_list; debug_list; debug_set; debug_multiset;
                    debug_unordered_set; debug_unordered_multiset; debug_map;
                    debug_multimap; debug_unordered_map;
                    debug_unordered_multimap])
      ++ [end_marker]
    /\ count_lines (String.eqb begin_marker) (lines text) = 1%nat
    /\ count_lines (String.eqb end_marker) (lines text) = 1%nat
    /\ (forall d,
           count_lines (String.eqb begin_marker) (block d) = 0%nat
           /\ count_lines (String.eqb end_marker) (block d) = 0%nat
           /\ forall t,
                os_text (code_serializer.call self (debug d) (fresh_stream t))
                = t +:+ unlines (block d))
    /\ (forall t,
           os_text (code_serializer.prefix self (fresh_stream t))
           = t +:+ unlines [comment_line; begin_marker; EmptyString])
    /\ (forall t,
           os_text (code_serializer.suffix self (fresh_stream t))
           = t +:+ unlines [end_marker])
    /\ forall (argv0 : string) (fs : gmap string string),
         let run :=
           main debug VERSION can_open [argv0; "--code"] (initial_world fs) in
         run.1 = 0%Z
         /\ os_text (cout run.2)
            = unlines (section_lines debug (spaces 4) registry)
         /\ files run.2 = fs.
Proof.
  intros self Hnames. cbv zeta.
  rewrite code_serialize_text. cbn [os_text fresh_stream].
  change (EmptyString +:+ ?x) with x.
  rewrite lines_unlines by by apply section_lines_no_newline.
  split; [reflexivity|]. rewrite !section_lines_markers by reflexivity.
  split; [reflexivity|]. split; [reflexivity|]. split; [|split; [|split]].
  - intros d. split; [|split].
    + apply marker_is_no_line, block_lines_no_slash. reflexivity.
    + apply marker_is_no_line, block_lines_no_slash. reflexivity.
    + intros t. by rewrite code_call_fresh.
  - intros t. unfold code_serializer.prefix. cbv zeta. stream_norm.
    unfold comment_line, begin_marker. unlines_norm. reflexivity.
  - intros t. unfold code_serializer.suffix. stream_norm. reflexivity.
  - intros argv0 fs. rewrite main_code, scan_options_nil.
    cbn [fst snd serialize_out]. split; [done|].
    rewrite code_serialize_text. split; reflexivity.
Qed.

(** C4: in [--code] mode, after any options scanned without error,
    (a) [-t] at the end of the arguments or followed by a token that is not
    a single decimal digit ends the run with status 2 and the
    invalid-argument diagnostic naming [-t], while [-t] followed by a digit
    sets the width to it; (b) the first token other than [-t] is opened as
    the output file, created or truncated, and receives the generated text
    in place of standard output, and when it cannot be opened the run ends
    with status 2 and the diagnostic naming [outputfile]; (c) once a file
    is open, any token other than [-t] ends the run with status 2 and the
    diagnostic naming [--code]. *)
Theorem code_option_errors :
  forall (fs : gmap string string) (argv0 : string) (pre : list string)
         (tab_width : N) (file : option string) (w : world),
    scan_options can_open pre 4 None (initial_world fs)
    = Scanned tab_width file w ->
    let run rest :=
      main debug VERSION can_open (argv0 :: "--code" :: pre ++ rest)
        (initial_world fs) in
    let failure option :=
      (2%Z, set_cerr (fresh_stream (invalid_argument_message option)) w) in
    run ["-t"] = failure "-t"
    /\ (forall token rest,
           c_string token = true -> ~ single_decimal_digit token ->
           run ("-t" :: token :: rest) = failure "-t")
    /\ (forall n : N,
           n <= 9 ->
           scan_options can_open (pre ++ ["-t"; dec n]) 4 None
             (initial_world fs)
           = Scanned n file w)
    /\ (forall path rest,
           path <> "-t" -> file = None -> can_open path = false ->
           run (path :: rest) = failure "outputfile")
    /\ (forall path,
           path <> "-t" -> file = None -> can_open path = true ->
           scan_options can_open (pre ++ [path]) 4 None (initial_world fs)
           = Scanned tab_width (Some path) (set_file path EmptyString w)
           /\ (run [path]).1 = 0%Z
           /\ cout (run [path]).2 = fresh_stream EmptyString
           /\ files (run [path]).2
              = <[path :=
                    unlines
                      (section_lines debug
                         (code_serializer.tab
                            (code_serializer.Build tab_width))
                         registry)]> (files w))
    /\ (forall token rest,
           token <> "-t" -> file <> None ->
           run (token :: rest) = failure "--code").
Proof.
  intros fs argv0 pre tab_width file w Hpre. cbv zeta.
  pose proof (scan_options_outcome can_open pre 4 None (initial_world fs))
    as Hout.
  rewrite Hpre in Hout. destruct Hout as [Hquiet Herr].
  cbn [cerr initial_world] in Herr.
  assert (forall option, rejects option w
            = Returned 2 (set_cerr (fresh_stream
                                      (invalid_argument_message option)) w))
    as Hrejects.
  { intros option. unfold rejects. by rewrite Herr, invalid_argument_text. }
  split; [|split; [|split; [|split; [|split]]]].
  - rewrite main_code, (scan_options_app _ _ _ _ _ _ _ _ _ Hpre).
    by rewrite scan_options_t_end, Hrejects.
  - intros token rest Hc Hno.
    rewrite main_code, (scan_options_app _ _ _ _ _ _ _ _ _ Hpre).
    rewrite scan_options_t, digit_rejected by done. by rewrite Hrejects.
  - intros n Hn. rewrite (scan_options_app _ _ _ _ _ _ _ _ _ Hpre).
    rewrite scan_options_t. destruct (digit_accepted n Hn) as [-> ->].
    apply scan_options_nil.
  - intros path rest Hpath -> Hopen.
    rewrite main_code, (scan_options_app _ _ _ _ _ _ _ _ _ Hpre).
    rewrite scan_options_path, Hopen by done. by rewrite Hrejects.
  - intros path Hpath -> Hopen.
    rewrite main_code, (scan_options_app _ _ _ _ _ _ _ _ _ Hpre).
    rewrite scan_options_path, Hopen, scan_options_nil by done.
    split; [done|]. split; [done|]. cbn [snd serialize_out].
    rewrite code_serialize_text. cbn [cout files set_invoked set_file os_text
                                       fresh_stream pass_out].
    rewrite lookup_total_insert_eq, insert_insert_eq. split; [|done].
    by destruct Hquiet as (-> & _).
  - intros token rest Htoken Hfile.
    rewrite main_code, (scan_options_app _ _ _ _ _ _ _ _ _ Hpre).
    rewrite scan_options_path by done.
    destruct file; [|done]. by rewrite Hrejects.
Qed.

(** C7: a first token that is none of the five mode names ends the run
    with status 2, nothing on standard output, and on the error stream a
    message made of the token without its leading dashes and of the hint
    to try [--help]. *)
Theorem unrecognized_option_rejected :
  forall (argv0 token : string) (rest : list string)
         (fs : gmap string string),
    recognized token = false ->
    let message := invalid_option_message (skip_dashes token) in
    main debug VERSION can_open (argv0 :: token :: rest) (initial_world fs)
    = (2%Z, set_cerr (fresh_stream message) (initial_world fs))
    /\ contains (skip_dashes token) message
    /\ contains "--help" message
    /\ (exists n, token = dashes n +:+ skip_dashes token)
    /\ starts_with "-" (skip_dashes token) = false.
Proof.
  intros argv0 token rest fs Htoken. cbv zeta.
  split; [|split; [|split]].
  - rewrite main_unrecognized by done. unfold fail_with.
    cbn [cerr initial_world]. by rewrite invalid_option_text.
  - unfold invalid_option_message. unlines_norm.
    rewrite <- (append_assoc exe_name). apply contains_intro.
  - unfold invalid_option_message, help_hint. unlines_norm.
    exists (exe_name +:+ ": invalid option -- '" +:+ skip_dashes token
            +:+ "'" +:+ String NL EmptyString +:+ "Try '" +:+ exe_name
            +:+ " "),
      ("' for more information." +:+ String NL EmptyString).
    rewrite !append_assoc. reflexivity.
  - apply skip_dashes_spec.
Qed.

(** C8: a run without arguments and a run whose first token is
    [--simple] end in the same state with the same status. *)
Theorem no_arguments_is_simple :
  forall (argv0 argv0' : string) (rest : list string) (w : world),
    main debug VERSION can_open [] w
    = main debug VERSION can_open (argv0' :: "--simple" :: rest) w
    /\ main debug VERSION can_open [argv0] w
       = main debug VERSION can_open (argv0' :: "--simple" :: rest) w.
Proof. intros argv0 argv0' rest w. split; reflexivity. Qed.

(** C9: a [--code] run that does not succeed ends with status 2 after one
    invalid-argument diagnostic, and by then no serializer method has been
    called, nothing has been written to standard output, and every file is
    as it was or empty. *)
Theorem code_failure_emits_nothing :
  forall (argv0 : string) (rest : list string) (fs : gmap string string),
    let run :=
      main debug VERSION can_open (argv0 :: "--code" :: rest)
        (initial_world fs) in
    run.1 <> 0%Z ->
    run.1 = 2%Z
    /\ invoked run.2 = []
    /\ cout run.2 = fresh_stream EmptyString
    /\ nothing_generated fs (files run.2)
    /\ exists option,
         (option = "-t" \/ option = "outputfile" \/ option = "--code")
         /\ cerr run.2 = fresh_stream (invalid_argument_message option).
Proof.
  intros argv0 rest fs. cbv zeta. rewrite main_code.
  pose proof (scan_options_outcome can_open rest 4 None (initial_world fs))
    as Hscan.
  destruct (scan_options _ _ _ _ _) as [tw file w | status w];
    cbn [scan_outcome fst snd] in *; [done|].
  destruct Hscan as (-> & (Hcout & Hlog & Hfiles) & option & Hoption & Herr).
  intros _. repeat split; [done..|].
  exists option. split; [done|]. by rewrite Herr, <- invalid_argument_text.
Qed.

(** C10: when the first token is not [--code], the run depends on no
    other token: two argument vectors with the same first token end in the
    same state with the same status, as do any two without arguments. *)
Theorem later_tokens_ignored :
  forall (argv0 argv0' token : string) (rest rest' : list string)
         (w : world),
    token <> "--code" ->
    main debug VERSION can_open (argv0 :: token :: rest) w
    = main debug VERSION can_open (argv0' :: token :: rest') w
    /\ main debug VERSION can_open [argv0] w
       = main debug VERSION can_open [argv0'] w.
Proof.
  intros argv0 argv0' token rest rest' w Htoken%String.eqb_neq.
  split; [|reflexivity]. unfold main. by rewrite Htoken.
Qed.

End main_lemmas.

(** ** The theorems at sample inputs *)

Lemma dispatcher_pass_order_witness :
  serializing_mode ["tool"; "--code"; "-t"; "2"] = true
  /\ (main sample_debug "1.0" sample_can_open ["tool"; "--code"; "-t"; "2"]
        (initial_world ∅)).1 = 0%Z
  /\ invoked (main sample_debug "1.0" sample_can_open
                ["tool"; "--code"; "-t"; "2"] (initial_world ∅)).2
     = full_pass sample_debug
  /\ cout (main sample_debug "1.0" sample_can_open
             ["tool"; "--code"; "-t"; "2"] (initial_world ∅)).2
     = applied_in_order (code_serializer.Build 2) sample_debug
         (fresh_stream EmptyString).
Proof.
  split; [reflexivity|]. split; [reflexivity|].
  pose proof (dispatcher_pass_order sample_debug "1.0" sample_can_open
                ["tool"; "--code"; "-t"; "2"] ∅ eq_refl eq_refl) as Hrun.
  cbv zeta in Hrun. destruct Hrun as ((Hlog & _) & _ & _ & Hcode).
  split; [exact Hlog|]. destruct (Hcode eq_refl) as [_ Hgenerated].
  exact (proj1 (proj2 (Hgenerated 2 None (initial_world ∅) eq_refl))).
Defined.

Lemma code_option_errors_witness :
  scan_options sample_can_open ["-t"; "2"; "out.txt"] 4 None (initial_world ∅)
  = Scanned 2 (Some "out.txt")
      (set_file "out.txt" EmptyString (initial_world ∅))
  /\ "extra" <> "-t"
  /\ Some "out.txt" <> None
  /\ main sample_debug "1.0" sample_can_open
       ("tool" :: "--code" :: ["-t"; "2"; "out.txt"] ++ ["extra"; "more"])
       (initial_world ∅)
     = (2%Z,
        set_cerr (fresh_stream (invalid_argument_message "--code"))
          (set_file "out.txt" EmptyString (initial_world ∅))).
Proof.
  split; [reflexivity|]. split; [discriminate|]. split; [discriminate|].
  apply (code_option_errors sample_debug "1.0" sample_can_open ∅ "tool"
           ["-t"; "2"; "out.txt"] 2 (Some "out.txt")
           (set_file "out.txt" EmptyString (initial_world ∅)));
    [reflexivity|discriminate..].
Defined.

Lemma code_section_markers_witness :
  (forall d, no_newline (container_name (sample_debug d)) = true)
  /\ count_lines (String.eqb begin_marker)
       (lines (os_text (pass_out
                          (serialize sample_debug (code_serializer.Build 4)
                             {| pass_out := fresh_stream EmptyString;
                                pass_log := [] |}))))
     = 1%nat.
Proof.
  split; [intros []; reflexivity|].
  refine (proj1 (proj2 (code_section_markers sample_debug "1.0"
                          sample_can_open (code_serializer.Build 4) _))).
  intros []; reflexivity.
Defined.

Lemma unrecognized_option_rejected_witness :
  recognized "--bogus" = false
  /\ main sample_debug "1.0" sample_can_open ["tool"; "--bogus"]
       (initial_world ∅)
     = (2%Z,
        set_cerr (fresh_stream (invalid_option_message "bogus"))
          (initial_world ∅)).
Proof.
  split; [reflexivity|].
  apply (unrecognized_option_rejected sample_debug "1.0" sample_can_open
           "tool" "--bogus" [] ∅).
  reflexivity.
Defined.

Lemma code_failure_emits_nothing_witness :
  (main sample_debug "1.0" sample_can_open
     ["tool"; "--code"; "out.txt"; "extra"] (initial_world ∅)).1 <> 0%Z
  /\ invoked (main sample_debug "1.0" sample_can_open
                ["tool"; "--code"; "out.txt"; "extra"] (initial_world ∅)).2
     = [].
Proof.
  split; [discriminate|].
  apply (code_failure_emits_nothing sample_debug "1.0" sample_can_open
           "tool" ["out.txt"; "extra"] ∅).
  discriminate.
Defined.

Lemma later_tokens_ignored_witness :
  "--verbose" <> "--code"
  /\ main sample_debug "1.0" sample_can_open ["a"; "--verbose"; "x"; "y"]
       (initial_world ∅)
     = main sample_debug "1.0" sample_can_open ["b"; "--verbose"]
         (initial_world ∅).
Proof.
  split; [discriminate|].
  refine (proj1 (later_tokens_ignored sample_debug "1.0" sample_can_open
                   "a" "b" "--verbose" ["x"; "y"] [] (initial_world ∅) _)).
  discriminate.
Defined.

(** * Further properties *)

(** ** Reading the Plain and Verbose reports back *)

Section reading_back.

Lemma append_empty_l (s : string) : EmptyString +:+ s = s.
Proof. reflexivity. Qed.

Lemma all_chars_impl (p q : ascii -> bool) (s : string) :
  (forall c, p c = true -> q c = true) ->
  all_chars p s = true -> all_chars q s = true.
Proof.
  intros Hpq. induction s as [|c s IH]; [done|]. cbn [all_chars].
  intros [Hc Hs]%andb_true_iff. by rewrite (Hpq c Hc), IH.
Qed.

Lemma all_digits_uint (u : Decimal.uint) :
  all_chars isdigit (NilEmpty.string_of_uint u) = true.
Proof. induction u; cbn; auto. Qed.

Lemma all_digits_dec (n : N) : all_chars isdigit (dec n) = true.
Proof.
  unfold dec, NilZero.string_of_uint.
  destruct (N.to_uint n) eqn:Hu; try reflexivity;
    rewrite <- Hu at 1; rewrite Hu; apply all_digits_uint.
Qed.

Lemma dec_head (n : N) :
  exists c rest, dec n = String c rest /\ isdigit c = true.
Proof.
  pose proof (all_digits_dec n) as Hdigits. revert Hdigits.
  unfold dec, NilZero.string_of_uint.
  destruct (N.to_uint n); cbn [NilEmpty.string_of_uint all_chars];
    intros [Hc _]%andb_true_iff; eauto.
Qed.

Lemma digit_not_blank (c : ascii) : isdigit c = true -> is_blank c = false.
Proof.
  intros Hc. unfold is_blank.
  destruct (Ascii.eqb_spec c " ") as [-> | _]; [done|].
  by destruct (Ascii.eqb_spec c HT) as [-> | _].
Qed.

Lemma split_at_first (c : ascii) (s rest : string) :
  all_chars (fun c' => negb (Ascii.eqb c' c)) s = true ->
  split_at c (s +:+ String c rest) = Some (s, rest).
Proof.
  induction s as [|c' s IH]; cbn [all_chars].
  - intros _. rewrite append_empty_l. cbn [split_at].
    by rewrite Ascii.eqb_refl.
  - intros [Hc Hs]%andb_true_iff. rewrite append_cons. cbn [split_at].
    apply negb_true_iff in Hc. by rewrite Hc, IH.
Qed.

Lemma strip_prefix_append (p s : string) : strip_prefix p (p +:+ s) = Some s.
Proof.
  induction p as [|c p IH]; [by destruct s|].
  rewrite append_cons. cbn [strip_prefix]. by rewrite Ascii.eqb_refl.
Qed.

Lemma span_digits_append (d : string) (c : ascii) (rest : string) :
  all_chars isdigit d = true -> isdigit c = false ->
  span_digits (d +:+ String c rest) = (d, String c rest).
Proof.
  intros Hd Hc. induction d as [|c' d IH].
  - rewrite append_empty_l. cbn [span_digits]. by rewrite Hc.
  - cbn [all_chars] in Hd. apply andb_true_iff in Hd as [Hc' Hd].
    rewrite append_cons. cbn [span_digits]. by rewrite Hc', (IH Hd).
Qed.

Lemma read_field_right_aligned (n : N) (rest : string) :
  (exists c r, rest = String c r /\ isdigit c = false) ->
  read_field (right_aligned 2 n +:+ rest) = Some (n, rest).
Proof.
  intros (c & r & -> & Hc). unfold read_field, right_aligned, pad_field.
  rewrite append_assoc, drop_blanks_append by apply all_blank_spaces.
  assert (drop_blanks (dec n +:+ String c r) = dec n +:+ String c r) as ->.
  { destruct (dec_head n) as (c' & d & -> & Hc'%digit_not_blank).
    rewrite append_cons. cbn [drop_blanks]. by rewrite Hc'. }
  rewrite span_digits_append by (apply all_digits_dec || done).
  cbn [fst snd]. by rewrite read_dec_dec.
Qed.

Lemma read_plain_line_plain_line (pair : N * N) :
  read_plain_line (plain_line pair) = Some pair.
Proof.
  destruct pair as [a s]. unfold read_plain_line, plain_line. cbn [fst snd].
  rewrite strip_prefix_append.
  change ("=" +:+ dec s) with (String "="%char (dec s)).
  rewrite split_at_first.
  - by rewrite !read_dec_dec.
  - eapply all_chars_impl; [|apply all_digits_dec].
    intros c Hc. apply negb_true_iff.
    by destruct (Ascii.eqb_spec c "=") as [-> | _].
Qed.

Lemma read_verbose_line_verbose_line (pair : N * N) :
  read_verbose_line (verbose_line (right_aligned 2) pair) = Some pair.
Proof.
  destruct pair as [a s]. unfold read_verbose_line, verbose_line.
  cbn [fst snd]. rewrite strip_prefix_append.
  rewrite read_field_right_aligned by (by eexists _, _).
  rewrite strip_prefix_append.
  by rewrite read_field_right_aligned by (by eexists _, _).
Qed.

Lemma simple_loop (sizes : list (N * N)) (t : string) :
  fold_left
    (fun out (pair : N * N) =>
       out << HT << pair.1 << "="%char << pair.2 << NL)
    sizes (fresh_stream t)
  = fresh_stream (t +:+ unlines (map plain_line sizes)).
Proof.
  revert t. induction sizes as [|pair sizes IH]; intros t.
  - cbn. by rewrite append_empty_r.
  - rewrite fold_left_step. cbn [map]. stream_norm. rewrite IH.
    unfold plain_line. unlines_norm. reflexivity.
Qed.

Lemma simple_call_fresh (result : debug_result) (t : string) :
  simple_serializer.call simple_serializer.Build result (fresh_stream t)
  = fresh_stream (t +:+ plain_report result).
Proof.
  unfold simple_serializer.call. cbv zeta. stream_norm.
  rewrite simple_loop. unfold plain_report. unlines_norm. reflexivity.
Qed.

Lemma plain_lines (result : debug_result) :
  no_newline (container_name result) = true ->
  lines (plain_report result)
  = (container_name result +:+ ":") :: map plain_line (node_sizes result).
Proof.
  intros Hname. apply lines_unlines. constructor.
  - by rewrite no_newline_append, Hname.
  - apply Forall_map, Forall_forall. intros [a s] _. unfold plain_line.
    cbn [no_newline fst snd]. by rewrite !no_newline_append, !no_newline_dec.
Qed.

Lemma verbose_lines (result : debug_result) :
  no_newline (container_name result) = true ->
  lines (verbose_report (right_aligned 2) result)
  = ("For container '" +:+ container_name result +:+ "':")
    :: map (verbose_line (right_aligned 2)) (node_sizes result).
Proof.
  intros Hname. apply lines_unlines. constructor.
  - by rewrite !no_newline_append, Hname.
  - apply Forall_map, Forall_forall. intros [a s] _.
    unfold verbose_line, right_aligned, pad_field. cbn [no_newline fst snd].
    by rewrite !no_newline_append, !no_newline_dec, !no_newline_spaces.
Qed.

Lemma map_read_back {A : Type} (read : string -> option A)
    (write : A -> string) (xs : list A) :
  (forall x, read (write x) = Some x) ->
  map read (map write xs) = map Some xs.
Proof.
  intros Hread. induction xs as [|x xs IH]; [done|].
  cbn [map]. by rewrite Hread, IH.
Qed.

End reading_back.

(** X1: the Plain report of a result is the line of its name followed by
    a colon, then one line per entry, a tab and alignment=size, in the
    order of the entries; reading these lines back gives the entries. *)
Theorem plain_report_reads_back :
  forall result : debug_result,
    no_newline (container_name result) = true ->
    let text :=
      os_text (simple_serializer.call simple_serializer.Build result
                 (fresh_stream EmptyString)) in
    lines text
    = (container_name result +:+ ":") :: map plain_line (node_sizes result)
    /\ map read_plain_line (tail (lines text)) = map Some (node_sizes result)
    /\ forall t : string,
         os_text (simple_serializer.call simple_serializer.Build result
                    (fresh_stream t))
         = t +:+ text.
Proof.
  intros result Hname. cbv zeta. rewrite !simple_call_fresh.
  cbn [os_text fresh_stream]. change (EmptyString +:+ ?x) with x.
  rewrite plain_lines by done. split; [done|]. split.
  - cbn [tail]. apply map_read_back, read_plain_line_plain_line.
  - intros t. by rewrite simple_call_fresh.
Qed.

Lemma plain_report_reads_back_witness :
  no_newline (container_name (sample_debug debug_set)) = true
  /\ map read_plain_line
       (tail (lines (os_text (simple_serializer.call simple_serializer.Build
                                (sample_debug debug_set)
                                (fresh_stream EmptyString)))))
     = map Some [(1, 8); (2, 8); (4, 8); (8, 16); (16, 16)].
Proof.
  split; [reflexivity|].
  refine (proj1 (proj2 (plain_report_reads_back (sample_debug debug_set) _))).
  reflexivity.
Defined.

(** X2: reading back the entry lines of the Verbose report of a result
    gives its entries, in their order: the padding of the two numbers
    loses nothing. *)
Theorem verbose_report_reads_back :
  forall result : debug_result,
    no_newline (container_name result) = true ->
    let text :=
      os_text (verbose_serializer.call verbose_serializer.Build result
                 (fresh_stream EmptyString)) in
    map read_verbose_line (tail (lines text)) = map Some (node_sizes result)
    /\ length (lines text) = S (length (node_sizes result)).
Proof.
  intros result Hname. cbv zeta. rewrite verbose_call_fresh.
  cbn [os_text fresh_stream]. change (EmptyString +:+ ?x) with x.
  rewrite verbose_lines by done. cbn [tail length]. split.
  - apply map_read_back, read_verbose_line_verbose_line.
  - by rewrite length_map.
Qed.

Lemma verbose_report_reads_back_witness :
  no_newline (container_name (sample_debug debug_map)) = true
  /\ map read_verbose_line
       (tail (lines (os_text (verbose_serializer.call
                                verbose_serializer.Build
                                (sample_debug debug_map)
                                (fresh_stream EmptyString)))))
     = map Some [(1, 8); (2, 8); (4, 8); (8, 16); (16, 16)].
Proof.
  split; [reflexivity|].
  refine (proj1 (verbose_report_reads_back (sample_debug debug_map) _)).
  reflexivity.
Defined.

(** X3: for every result, the Plain and the Verbose report hold the same
    entries in the same order, on as many lines. *)
Theorem plain_and_verbose_agree :
  forall result : debug_result,
    no_newline (container_name result) = true ->
    let plain :=
      lines (os_text (simple_serializer.call simple_serializer.Build result
                        (fresh_stream EmptyString))) in
    let verbose :=
      lines (os_text (verbose_serializer.call verbose_serializer.Build result
                        (fresh_stream EmptyString))) in
    map read_plain_line (tail plain) = map read_verbose_line (tail verbose)
    /\ length plain = length verbose.
Proof.
  intros result Hname. cbv zeta. rewrite simple_call_fresh, verbose_call_fresh.
  cbn [os_text fresh_stream]. change (EmptyString +:+ ?x) with x.
  rewrite plain_lines, verbose_lines by done. cbn [tail length]. split.
  - rewrite !map_read_back;
      auto using read_plain_line_plain_line, read_verbose_line_verbose_line.
  - by rewrite !length_map.
Qed.

Lemma plain_and_verbose_agree_witness :
  no_newline (container_name list_8_16) = true
  /\ length (lines (os_text (simple_serializer.call simple_serializer.Build
                               list_8_16 (fresh_stream EmptyString))))
     = length (lines (os_text (verbose_serializer.call
                                 verbose_serializer.Build list_8_16
                                 (fresh_stream EmptyString)))).
Proof.
  split; [reflexivity|].
  refine (proj2 (plain_and_verbose_agree list_8_16 _)).
  reflexivity.
Defined.

(** ** The generated code *)

Section generated_code.

Lemma block_lines_drop_blanks (unit : string) (result : debug_result) :
  all_blank unit = true ->
  map drop_blanks (block_lines unit result)
  = map drop_blanks (block_lines EmptyString result).
Proof.
  intros Hunit. unfold block_lines. rewrite !map_app. f_equal; [|f_equal].
  - cbn [map block_head]. by rewrite !(drop_blanks_append unit).
  - induction (node_sizes result) as [|pair sizes IH]; [done|].
    cbn [map concat]. rewrite !map_app, IH. f_equal.
    cbn [map specialization_lines]. by rewrite !(drop_blanks_append unit).
Qed.

Lemma section_lines_drop_blanks (debug : debugger -> debug_result)
    (unit : string) (ds : list debugger) :
  all_blank unit = true ->
  map drop_blanks (section_lines debug unit ds)
  = map drop_blanks (section_lines debug EmptyString ds).
Proof.
  intros Hunit. unfold section_lines. rewrite !map_app. do 2 f_equal.
  induction ds as [|d ds IH]; [done|].
  cbn [map concat]. rewrite !map_app, IH. f_equal.
  by apply block_lines_drop_blanks.
Qed.

Lemma count_char_append (c : ascii) (s t : string) :
  count_char c (s +:+ t) = (count_char c s + count_char c t)%nat.
Proof.
  induction s as [|c' s IH]; [done|].
  rewrite append_cons. cbn [count_char]. rewrite IH. lia.
Qed.

Lemma count_char_none (c : ascii) (p : ascii -> bool) (s : string) :
  p c = false -> all_chars p s = true -> count_char c s = 0%nat.
Proof.
  intros Hc. induction s as [|c' s IH]; [done|]. cbn [all_chars count_char].
  intros [Hc' Hs]%andb_true_iff. rewrite (IH Hs).
  destruct (Ascii.eqb_spec c' c) as [-> | _]; [congruence|done].
Qed.

Lemma count_char_unlines (c : ascii) (ls : list string) :
  Ascii.eqb NL c = false -> count_char c (unlines ls) = sum_counts c ls.
Proof.
  intros Hc. induction ls as [|l ls IH]; [done|].
  rewrite unlines_cons, !count_char_append, IH. cbn [count_char sum_counts fold_right].
  rewrite Hc. fold (sum_counts c ls). lia.
Qed.

Lemma sum_counts_app (c : ascii) (ls ks : list string) :
  sum_counts c (ls ++ ks) = (sum_counts c ls + sum_counts c ks)%nat.
Proof.
  induction ls as [|l ls IH]; [done|].
  cbn [app sum_counts fold_right] in *. fold (sum_counts c (ls ++ ks)).
  fold (sum_counts c ls). rewrite IH. lia.
Qed.

Lemma all_blank_chars (s : string) :
  all_blank s = true -> all_chars is_blank s = true.
Proof.
  induction s as [|c s IH]; [done|]. cbn [all_blank all_chars].
  intros [Hc Hs]%andb_true_iff. by rewrite Hc, IH.
Qed.

(** The brackets of a block: those of its fixed text, the unit, the name
    and the numbers holding none. *)
Lemma block_brackets (c : ascii) (self : code_serializer.t)
    (result : debug_result) :
  is_bracket c = true ->
  all_chars (fun c => negb (is_bracket c)) (container_name result) = true ->
  sum_counts c (block_lines (code_serializer.tab self) result)
  = (sum_counts c (block_head EmptyString EmptyString)
     + length (node_sizes result)
       * sum_counts c (specialization_lines EmptyString EmptyString (0%N, 0%N))
     + sum_counts c (block_tail EmptyString))%nat.
Proof.
  intros Hc Hname.
  assert (count_char c (container_name result) = 0%nat) as Hn.
  { eapply count_char_none; [|exact Hname]. cbv beta. by rewrite Hc. }
  assert (count_char c (code_serializer.tab self) = 0%nat) as Hu.
  { eapply (count_char_none c is_blank);
      [|apply all_blank_chars, tab_all_blank].
    unfold is_bracket in Hc. unfold is_blank.
    repeat (apply orb_true_iff in Hc as [Hc | Hc]);
      apply Ascii.eqb_eq in Hc; by subst. }
  assert (forall n, count_char c (dec n) = 0%nat) as Hd.
  { intros n. eapply (count_char_none c isdigit); [|apply all_digits_dec].
    unfold is_bracket in Hc.
    repeat (apply orb_true_iff in Hc as [Hc | Hc]);
      apply Ascii.eqb_eq in Hc; by subst. }
  assert (sum_counts c (block_head (code_serializer.tab self)
                          (container_name result))
          = sum_counts c (block_head EmptyString EmptyString)) as Hhead.
  { cbn [block_head sum_counts fold_right].
    rewrite !count_char_append, Hn, Hu.
    change (count_char c EmptyString) with 0%nat. lia. }
  assert (sum_counts c
            (concat (map (specialization_lines (code_serializer.tab self)
                            (container_name result)) (node_sizes result)))
          = (length (node_sizes result)
             * sum_counts c
                 (specialization_lines EmptyString EmptyString (0%N, 0%N)))%nat)
    as Hspecs.
  { induction (node_sizes result) as [|[a s] sizes IH]; [done|].
    cbn [map concat length]. rewrite sum_counts_app, IH.
    cbn [specialization_lines sum_counts fold_right fst snd].
    rewrite !count_char_append, Hn, Hu, !Hd.
    change (count_char c EmptyString) with 0%nat. lia. }
  assert (sum_counts c (block_tail (container_name result))
          = sum_counts c (block_tail EmptyString)) as Htail.
  { cbn [block_tail sum_counts fold_right].
    rewrite !count_char_append, Hn.
    change (count_char c EmptyString) with 0%nat. lia. }
  unfold block_lines. rewrite !sum_counts_app, Hhead, Hspecs, Htail. lia.
Qed.

Lemma check_brackets_append (s t : string) :
  forall stack,
    check_brackets stack (s +:+ t)
    = match check_brackets stack s with
      | Some stack' => check_brackets stack' t
      | None => None
      end.
Proof.
  induction s as [|c s IH]; intros stack; [done|].
  rewrite append_cons. cbn [check_brackets].
  repeat (destruct (Ascii.eqb c _); [apply IH|]).
  destruct (_ || _); [|apply IH].
  destruct stack as [|expected stack]; [done|].
  destruct (Ascii.eqb expected c); [apply IH|done].
Qed.

Lemma check_brackets_none (s : string) :
  all_chars (fun c => negb (is_bracket c)) s = true ->
  forall stack, check_brackets stack s = Some stack.
Proof.
  induction s as [|c s IH]; [done|]. cbn [all_chars].
  intros [Hc Hs]%andb_true_iff stack. cbn [check_brackets].
  apply negb_true_iff in Hc. unfold is_bracket in Hc.
  repeat (apply orb_false_iff in Hc as [Hc ?]).
  repeat match goal with H : Ascii.eqb c _ = false |- _ => rewrite H end.
  cbn [orb]. by apply IH.
Qed.

Lemma blank_is_no_bracket (c : ascii) :
  is_blank c = true -> negb (is_bracket c) = true.
Proof.
  unfold is_blank. intros [Hc | Hc]%orb_true_iff;
    apply Ascii.eqb_eq in Hc; by subst.
Qed.

Lemma digit_is_no_bracket (c : ascii) :
  isdigit c = true -> negb (is_bracket c) = true.
Proof.
  intros Hc. apply negb_true_iff. unfold is_bracket.
  repeat (apply orb_false_iff; split);
    apply Ascii.eqb_neq; by intros ->.
Qed.

End generated_code.

(** Bracket matching through the lines of a block, for a unit, a name and
    numbers that hold no bracket. *)
Section matching.

Variable unit name : string.
Hypothesis unit_neutral : forall stack, check_brackets stack unit = Some stack.
Hypothesis name_neutral : forall stack, check_brackets stack name = Some stack.

Lemma dec_neutral (n : N) (stack : list ascii) :
  check_brackets stack (dec n) = Some stack.
Proof.
  apply check_brackets_none.
  eapply all_chars_impl; [apply digit_is_no_bracket|apply all_digits_dec].
Qed.

Ltac match_brackets :=
  unlines_norm;
  repeat (rewrite check_brackets_append;
          rewrite ?unit_neutral, ?name_neutral, ?dec_neutral; cbn);
  rewrite ?unit_neutral, ?name_neutral, ?dec_neutral; try reflexivity.

Lemma head_opens_scope (stack : list ascii) :
  check_brackets stack (unlines (block_head unit name))
  = Some ("}"%char :: stack).
Proof. unfold block_head. match_brackets. Qed.

Lemma specialization_matched (pair : N * N) (stack : list ascii) :
  check_brackets stack (unlines (specialization_lines unit name pair))
  = Some stack.
Proof. unfold specialization_lines. match_brackets. Qed.

Lemma specializations_matched (sizes : list (N * N)) (stack : list ascii) :
  check_brackets stack
    (unlines (concat (map (specialization_lines unit name) sizes)))
  = Some stack.
Proof.
  induction sizes as [|pair sizes IH]; [done|].
  cbn [map concat]. rewrite unlines_app, check_brackets_append.
  by rewrite specialization_matched.
Qed.

Lemma tail_closes_scope (stack : list ascii) :
  check_brackets ("}"%char :: stack) (unlines (block_tail name))
  = Some stack.
Proof. unfold block_tail. match_brackets. Qed.

End matching.


(** X4: the indentation width changes the leading blanks of the lines of
    a CodeGen run and nothing else: two runs over the same probe differ in
    no line once the leading blanks are dropped. *)
Theorem width_changes_only_indentation :
  forall (debug : debugger -> debug_result) (self self' : code_serializer.t),
    (forall d, no_newline (container_name (debug d)) = true) ->
    let text (s : code_serializer.t) :=
      os_text (pass_out (serialize debug s
                           {| pass_out := fresh_stream EmptyString;
                              pass_log := [] |})) in
    map drop_blanks (lines (text self)) = map drop_blanks (lines (text self'))
    /\ length (lines (text self)) = length (lines (text self')).
Proof.
  intros debug self self' Hnames. cbv beta zeta.
  rewrite !code_serialize_text. cbn [os_text fresh_stream].
  change (EmptyString +:+ ?x) with x.
  rewrite !lines_unlines by by apply section_lines_no_newline.
  assert (map drop_blanks
            (section_lines debug (code_serializer.tab self) registry)
          = map drop_blanks
              (section_lines debug (code_serializer.tab self') registry))
    as Heq.
  { rewrite (section_lines_drop_blanks _ (code_serializer.tab self))
      by apply tab_all_blank.
    by rewrite (section_lines_drop_blanks _ (code_serializer.tab self'))
      by apply tab_all_blank. }
  split; [exact Heq|].
  by rewrite <- (length_map drop_blanks), Heq, length_map.
Qed.

Lemma width_changes_only_indentation_witness :
  (forall d, no_newline (container_name (sample_debug d)) = true)
  /\ length (lines (os_text (pass_out
                               (serialize sample_debug
                                  (code_serializer.Build 0)
                                  {| pass_out := fresh_stream EmptyString;
                                     pass_log := [] |}))))
     = length (lines (os_text (pass_out
                                 (serialize sample_debug
                                    (code_serializer.Build 8)
                                    {| pass_out := fresh_stream EmptyString;
                                       pass_log := [] |})))).
Proof.
  split; [intros []; reflexivity|].
  refine (proj2 (width_changes_only_indentation sample_debug
                   (code_serializer.Build 0) (code_serializer.Build 8) _)).
  intros []; reflexivity.
Defined.

(** X5: when the container name holds no bracket, the block generated
    for a result is balanced: every brace, angle bracket and parenthesis
    of its text is closed by a bracket of its own kind, innermost first,
    and none is left open; it holds as many opening as closing braces (two
    and one per entry), angle brackets (four and three per entry) and
    parentheses (two). *)
Theorem generated_block_balanced :
  forall (self : code_serializer.t) (result : debug_result),
    all_chars (fun c => negb (is_bracket c)) (container_name result) = true ->
    let text :=
      os_text (code_serializer.call self result (fresh_stream EmptyString)) in
    let n := length (node_sizes result) in
    balanced text
    /\ (count_char "{" text = (2 + n)%nat /\ count_char "}" text = (2 + n)%nat)
    /\ (count_char "<" text = (4 + 3 * n)%nat
        /\ count_char ">" text = (4 + 3 * n)%nat)
    /\ (count_char "(" text = 2%nat /\ count_char ")" text = 2%nat).
Proof.
  intros self result Hname. cbv zeta. rewrite code_call_fresh.
  cbn [os_text fresh_stream]. change (EmptyString +:+ ?x) with x. split.
  - assert (forall stack,
               check_brackets stack (code_serializer.tab self) = Some stack)
      as Hunit.
    { apply check_brackets_none.
      eapply all_chars_impl;
        [apply blank_is_no_bracket|apply all_blank_chars, tab_all_blank]. }
    pose proof (check_brackets_none _ Hname) as Hn.
    unfold balanced, block_lines.
    rewrite unlines_app, check_brackets_append, head_opens_scope by done.
    rewrite unlines_app, check_brackets_append, specializations_matched
      by done.
    by apply tail_closes_scope.
  - rewrite !count_char_unlines by reflexivity.
    rewrite !block_brackets by done.
    repeat split;
      repeat match goal with
             | |- context [sum_counts ?c ?ls] =>
                 let v := eval vm_compute in (sum_counts c ls) in
                 change (sum_counts c ls) with v
             end;
      lia.
Qed.

Lemma generated_block_balanced_witness :
  all_chars (fun c => negb (is_bracket c))
    (container_name (sample_debug debug_unordered_map)) = true
  /\ balanced
       (os_text (code_serializer.call (code_serializer.Build 4)
                   (sample_debug debug_unordered_map)
                   (fresh_stream EmptyString))).
Proof.
  split; [reflexivity|].
  refine (proj1 (generated_block_balanced (code_serializer.Build 4)
                   (sample_debug debug_unordered_map) _)).
  reflexivity.
Defined.

(** ** Runs of main *)

Section runs.

Variable debug : debugger -> debug_result.
Variable VERSION : string.
Variable can_open : string -> bool.

Lemma fold_reports {S : Type} `{Serializer S} (serializer : S)
    (report : debug_result -> string) (ds : list debugger) (t : string) :
  (forall result t,
      call serializer result (fresh_stream t)
      = fresh_stream (t +:+ report result)) ->
  fold_left (fun out d => call serializer (debug d) out) ds (fresh_stream t)
  = fresh_stream
      (t +:+ fold_right (fun d text => report (debug d) +:+ text)
               EmptyString ds).
Proof.
  intros Hcall. revert t. induction ds as [|d ds IH]; intros t.
  - cbn [fold_left fold_right]. by rewrite append_empty_r.
  - rewrite fold_left_step, Hcall, IH. cbn [fold_right].
    by rewrite append_assoc.
Qed.

Lemma serialize_code_fresh (width : N) (t : string)
    (log : list invocation) :
  serialize debug (code_serializer.Build width)
    {| pass_out := fresh_stream t; pass_log := log |}
  = {| pass_out := fresh_stream (t +:+ code_text debug width);
       pass_log := log ++ full_pass debug |}.
Proof.
  pose proof (code_serialize_text debug (code_serializer.Build width) t log)
    as Htext.
  rewrite serialize_spec in *. cbn [pass_out pass_log] in *.
  by rewrite Htext.
Qed.

Lemma digit_test_true (token : string) :
  c_string token = true ->
  isdigit (c_index token 0) && Ascii.eqb (c_index token 1) "000" = true ->
  single_decimal_digit token.
Proof.
  intros Hc [Hdigit Hend]%andb_true_iff.
  destruct token as [|c [|c' rest]]; [done| |].
  - by apply isdigit_dec.
  - cbn in Hend, Hc. rewrite Hend in Hc. cbn in Hc.
    by rewrite andb_false_r in Hc.
Qed.

(** The loop on the tokens of well-formed options. *)
Lemma scan_grammar (os : list code_option) :
  forall (tab_width : N) (file : option string) (w : world),
    Forall (option_ok can_open) os ->
    (length (option_paths os) <= 1)%nat ->
    (file <> None -> option_paths os = []) ->
    scan_options can_open (options_tokens os) tab_width file w
    = Scanned (last_width tab_width os)
        (match option_paths os with path :: _ => Some path | [] => file end)
        (match option_paths os with
         | path :: _ => set_file path EmptyString w
         | [] => w
         end).
Proof.
  induction os as [|[digit|path] os IH]; intros tab_width file w Hok Hlen Hfile.
  - reflexivity.
  - apply Forall_cons in Hok as [Hdigit Hok].
    change (options_tokens (opt_width digit :: os))
      with ("-t" :: dec digit :: options_tokens os).
    rewrite scan_options_t. destruct (digit_accepted digit Hdigit) as [-> ->].
    by apply IH.
  - apply Forall_cons in Hok as [[Hpath Hopen] Hok].
    change (options_tokens (opt_path path :: os))
      with (path :: options_tokens os).
    change (option_paths (opt_path path :: os))
      with (path :: option_paths os) in *.
    assert (option_paths os = []) as Hnone.
    { cbn [length] in Hlen. destruct (option_paths os); [done|].
      cbn [length] in Hlen. lia. }
    assert (file = None) as ->.
    { destruct file; [|done]. by discriminate Hfile. }
    rewrite scan_options_path, Hopen by done.
    rewrite IH by (done || rewrite Hnone; cbn; lia).
    by rewrite Hnone.
Qed.

(** Whatever the loop scans to the end is the tokens of well-formed
    options. *)
Lemma scan_accepts_grammar (cur : list string) :
  forall tab_width file w tab_width' file' w',
    Forall (fun token => c_string token = true) cur ->
    scan_options can_open cur tab_width file w
    = Scanned tab_width' file' w' ->
    exists os,
      cur = options_tokens os
      /\ Forall (option_ok can_open) os
      /\ (length (option_paths os) <= 1)%nat
      /\ (file <> None -> option_paths os = []).
Proof.
  assert (forall path os,
             path <> "-t" -> can_open path = true ->
             Forall (option_ok can_open) os ->
             option_paths os = [] ->
             Forall (option_ok can_open) (opt_path path :: os)
             /\ (length (option_paths (opt_path path :: os)) <= 1)%nat
             /\ (@None string <> None ->
                 option_paths (opt_path path :: os) = [])) as Hpath.
  { intros path os Hne Hopen Hok Hnone. split; [by constructor|].
    change (option_paths (opt_path path :: os))
      with (path :: option_paths os).
    rewrite Hnone. by split. }
  induction cur as [|a|a b cur IH1 IH2] using option_list_ind;
    intros tab_width file w tab_width' file' w' Hc.
  - intros _. exists []. split; [done|]. split; [constructor|].
    split; [cbn; lia|done].
  - destruct (decide (a = "-t")) as [-> | Ha];
      [by rewrite scan_options_t_end|].
    rewrite scan_options_path by done.
    destruct file; [done|]. destruct (can_open a) eqn:Hopen; [|done].
    intros _. exists [opt_path a]. split; [done|]. by apply Hpath.
  - apply Forall_cons in Hc as [Hca Hc].
    destruct (decide (a = "-t")) as [-> | Ha].
    + apply Forall_cons in Hc as [Hcb Hc]. rewrite scan_options_t.
      destruct (_ && _) eqn:Htest; [|done].
      destruct (digit_test_true b Hcb Htest) as (n & Hn & ->).
      intros (os & -> & Hok & Hlen & Hfile)%IH1; [|done].
      exists (opt_width n :: os). split; [done|]. split; [by constructor|].
      by split.
    + rewrite scan_options_path by done.
      destruct file; [done|]. destruct (can_open a) eqn:Hopen; [|done].
      intros (os & Hos & Hok & Hlen & Hfile)%IH2; [|done].
      exists (opt_path a :: os). split.
      * change (options_tokens (opt_path a :: os))
          with (a :: options_tokens os). by rewrite Hos.
      * apply Hpath; [done..|]. by apply Hfile.
Qed.

(** X6: a CodeGen run on well-formed options (any number of [-t] with a
    digit, at most one path that can be opened, in any order) succeeds;
    the text is indented by the last width given, 4 when none is, and goes
    to the file when one is named, leaving standard output empty, and to
    standard output otherwise, leaving the files alone. *)
Theorem code_run_succeeds :
  forall (argv0 : string) (os : list code_option) (fs : gmap string string),
    Forall (option_ok can_open) os ->
    (length (option_paths os) <= 1)%nat ->
    main debug VERSION can_open (argv0 :: "--code" :: options_tokens os)
      (initial_world fs)
    = (0%Z, code_success debug fs os).
Proof.
  intros argv0 os fs Hok Hlen. rewrite main_code, scan_grammar by done.
  unfold code_success, serialize_out. cbv zeta.
  destruct (option_paths os) as [|path paths];
    cbn [cout files invoked initial_world set_file os_text fresh_stream];
    [|rewrite lookup_total_insert_eq]; rewrite serialize_code_fresh;
    cbn [pass_out pass_log os_text fresh_stream];
    unfold set_invoked, set_cout, set_file;
    cbn [cout cerr files invoked os_width]; [done|].
  by rewrite insert_insert_eq.
Qed.

(** X7: a CodeGen run succeeds only on well-formed options: when the
    status is 0, the arguments after [--code] are the tokens of options
    whose widths are digits and whose at most one path can be opened. *)
Theorem code_run_accepts_only_options :
  forall (argv0 : string) (rest : list string) (fs : gmap string string),
    Forall (fun token => c_string token = true) rest ->
    (main debug VERSION can_open (argv0 :: "--code" :: rest)
       (initial_world fs)).1 = 0%Z ->
    exists os,
      rest = options_tokens os
      /\ Forall (option_ok can_open) os
      /\ (length (option_paths os) <= 1)%nat.
Proof.
  intros argv0 rest fs Hc. rewrite main_code.
  pose proof (scan_options_outcome can_open rest 4 None (initial_world fs))
    as Hout.
  destruct (scan_options _ _ _ _ _) as [tw file w | status w] eqn:Hscan.
  - intros _.
    destruct (scan_accepts_grammar rest _ _ _ _ _ _ Hc Hscan)
      as (os & ? & ? & ? & _).
    by exists os.
  - destruct Hout as [-> _]. done.
Qed.

(** X8: when a token other than [-t] follows well-formed options that
    name the output file, the run fails with status 2 and the diagnostic
    naming [--code], nothing has been generated, and the file named is
    left empty: what it held before the run is lost. *)
Theorem failed_run_empties_named_file :
  forall (argv0 path token : string) (os : list code_option)
         (rest : list string) (fs : gmap string string),
    Forall (option_ok can_open) os ->
    option_paths os = [path] ->
    token <> "-t" ->
    main debug VERSION can_open
      (argv0 :: "--code" :: options_tokens os ++ token :: rest)
      (initial_world fs)
    = (2%Z,
       {| cout := fresh_stream EmptyString;
          cerr := fresh_stream (invalid_argument_message "--code");
          files := <[path := EmptyString]> fs;
          invoked := [] |}).
Proof.
  intros argv0 path token os rest fs Hok Hpaths Htoken.
  rewrite main_code.
  rewrite (scan_options_app can_open _ _ _ _ _ _ _ _
             (scan_grammar os 4 None (initial_world fs) Hok
                ltac:(rewrite Hpaths; cbn; lia) ltac:(done))).
  rewrite Hpaths, scan_options_path by done. unfold rejects.
  cbn [cerr set_file initial_world]. by rewrite invalid_argument_text.
Qed.

End runs.

Lemma code_run_succeeds_witness :
  Forall (option_ok sample_can_open)
    [opt_width 8; opt_path "out.hpp"; opt_width 2]
  /\ (length (option_paths [opt_width 8; opt_path "out.hpp"; opt_width 2])
      <= 1)%nat
  /\ main sample_debug "1.0" sample_can_open
       ["tool"; "--code"; "-t"; "8"; "out.hpp"; "-t"; "2"] (initial_world ∅)
     = (0%Z,
        {| cout := fresh_stream EmptyString;
           cerr := fresh_stream EmptyString;
           files := {["out.hpp" := code_text sample_debug 2]};
           invoked := full_pass sample_debug |}).
Proof.
  assert (Forall (option_ok sample_can_open)
            [opt_width 8; opt_path "out.hpp"; opt_width 2]) as Hok.
  { repeat constructor; cbn; (lia || discriminate). }
  split; [exact Hok|]. split; [cbn; lia|].
  exact (code_run_succeeds sample_debug "1.0" sample_can_open "tool"
           [opt_width 8; opt_path "out.hpp"; opt_width 2] ∅ Hok
           (le_n 1)).
Defined.

Lemma code_run_accepts_only_options_witness :
  Forall (fun token => c_string token = true) ["-t"; "0"; "gen.hpp"]
  /\ (main sample_debug "1.0" sample_can_open
        ["tool"; "--code"; "-t"; "0"; "gen.hpp"] (initial_world ∅)).1 = 0%Z
  /\ exists os,
       ["-t"; "0"; "gen.hpp"] = options_tokens os
       /\ Forall (option_ok sample_can_open) os
       /\ (length (option_paths os) <= 1)%nat.
Proof.
  assert (Forall (fun token => c_string token = true)
            ["-t"; "0"; "gen.hpp"]) as Hc by (repeat constructor).
  split; [exact Hc|]. split; [reflexivity|].
  exact (code_run_accepts_only_options sample_debug "1.0" sample_can_open
           "tool" ["-t"; "0"; "gen.hpp"] ∅ Hc eq_refl).
Defined.

Lemma failed_run_empties_named_file_witness :
  Forall (option_ok sample_can_open) [opt_path "out.hpp"; opt_width 3]
  /\ option_paths [opt_path "out.hpp"; opt_width 3] = ["out.hpp"]
  /\ "extra" <> "-t"
  /\ main sample_debug "1.0" sample_can_open
       ("tool" :: "--code"
        :: options_tokens [opt_path "out.hpp"; opt_width 3] ++ ["extra"])
       (initial_world {["out.hpp" := "kept"]})
     = (2%Z,
        {| cout := fresh_stream EmptyString;
           cerr := fresh_stream (invalid_argument_message "--code");
           files := <["out.hpp" := EmptyString]> {["out.hpp" := "kept"]};
           invoked := [] |}).
Proof.
  assert (Forall (option_ok sample_can_open)
            [opt_path "out.hpp"; opt_width 3]) as Hok.
  { repeat constructor; cbn; (lia || discriminate). }
  split; [exact Hok|]. split; [reflexivity|]. split; [discriminate|].
  exact (failed_run_empties_named_file sample_debug "1.0" sample_can_open
           "tool" "out.hpp" "extra" [opt_path "out.hpp"; opt_width 3] []
           {["out.hpp" := "kept"]} Hok eq_refl ltac:(discriminate)).
Defined.

(** ** Every run *)

Section every_run.

Variable debug : debugger -> debug_result.
Variable VERSION : string.
Variable can_open : string -> bool.

Lemma skip_dashes_dashes (n : nat) (s : string) :
  skip_dashes (dashes n +:+ s) = skip_dashes s.
Proof. induction n as [|n IH]; [done|]. exact IH. Qed.

Lemma simple_pass (p : pass) :
  pass_out p = fresh_stream (os_text (pass_out p)) ->
  serialize debug simple_serializer.Build p
  = {| pass_out :=
         fresh_stream (os_text (pass_out p)
                       +:+ registry_reports plain_report debug);
       pass_log := pass_log p ++ full_pass debug |}.
Proof.
  intros Hfresh. rewrite serialize_spec. f_equal.
  change (suffix simple_serializer.Build ?x) with x.
  change (prefix simple_serializer.Build ?x) with x.
  rewrite Hfresh. apply (fold_reports debug simple_serializer.Build).
  intros result t. apply simple_call_fresh.
Qed.

Lemma verbose_pass (p : pass) :
  pass_out p = fresh_stream (os_text (pass_out p)) ->
  serialize debug verbose_serializer.Build p
  = {| pass_out :=
         fresh_stream (os_text (pass_out p)
                       +:+ registry_reports
                             (verbose_report (right_aligned 2)) debug);
       pass_log := pass_log p ++ full_pass debug |}.
Proof.
  intros Hfresh. rewrite serialize_spec. f_equal.
  change (suffix verbose_serializer.Build ?x) with x.
  change (prefix verbose_serializer.Build ?x) with x.
  rewrite Hfresh. apply (fold_reports debug verbose_serializer.Build).
  intros result t. apply verbose_call_fresh.
Qed.

(** X9: a Plain run (no argument, or [--simple] first) and a Verbose run
    ([--verbose] first) end with status 0 and leave on standard output the
    reports of the registry entries, one after the other in registry
    order, and nothing else; the error stream and the files are left
    alone. *)
Theorem plain_and_verbose_runs :
  forall (argv0 : string) (rest : list string) (fs : gmap string string),
    let ran report :=
      (0%Z,
       {| cout := fresh_stream (registry_reports report debug);
          cerr := fresh_stream EmptyString;
          files := fs;
          invoked := full_pass debug |}) in
    main debug VERSION can_open [argv0] (initial_world fs) = ran plain_report
    /\ main debug VERSION can_open (argv0 :: "--simple" :: rest)
         (initial_world fs) = ran plain_report
    /\ main debug VERSION can_open (argv0 :: "--verbose" :: rest)
         (initial_world fs) = ran (verbose_report (right_aligned 2)).
Proof.
  intros argv0 rest fs. cbv beta zeta.
  assert (serialize_cout debug simple_serializer.Build (initial_world fs)
          = {| cout := fresh_stream (registry_reports plain_report debug);
               cerr := fresh_stream EmptyString; files := fs;
               invoked := full_pass debug |}) as Hplain.
  { unfold serialize_cout. cbv zeta. by rewrite simple_pass. }
  split; [|split].
  - change (main debug VERSION can_open [argv0] (initial_world fs))
      with (0%Z, serialize_cout debug simple_serializer.Build
                   (initial_world fs)).
    by rewrite Hplain.
  - change (main debug VERSION can_open (argv0 :: "--simple" :: rest)
              (initial_world fs))
      with (0%Z, serialize_cout debug simple_serializer.Build
                   (initial_world fs)).
    by rewrite Hplain.
  - change (main debug VERSION can_open (argv0 :: "--verbose" :: rest)
              (initial_world fs))
      with (0%Z, serialize_cout debug verbose_serializer.Build
                   (initial_world fs)).
    unfold serialize_cout. cbv zeta. by rewrite verbose_pass.
Qed.

(** X10: every run ends with status 0 or 2. With status 2 nothing was
    written to standard output, no serializer method was called, and the
    error stream holds one diagnostic line followed by the line of the
    hint to try [--help]; with status 0 nothing was written to the error
    stream. Unless the first token is [--code], no file is touched. *)
Theorem exit_status_discipline :
  forall (argv : list string) (fs : gmap string string),
    let run := main debug VERSION can_open argv (initial_world fs) in
    (run.1 = 0%Z \/ run.1 = 2%Z)
    /\ (run.1 = 2%Z ->
        cout run.2 = fresh_stream EmptyString
        /\ invoked run.2 = []
        /\ exists diagnosis,
             cerr run.2 = fresh_stream (unlines [diagnosis; help_hint]))
    /\ (run.1 = 0%Z -> cerr run.2 = fresh_stream EmptyString)
    /\ (argv !! 1%nat <> Some "--code" -> files run.2 = fs).
Proof.
  intros argv fs. cbv zeta.
  destruct argv as [|argv0 [|argv1 rest]];
    [by repeat split; auto..|].
  unfold main.
  destruct (String.eqb_spec argv1 "--simple"); [by repeat split; auto|].
  destruct (String.eqb_spec argv1 "--verbose"); [by repeat split; auto|].
  destruct (String.eqb_spec argv1 "--code") as [-> | Hcode].
  - cbn [drop].
    pose proof (scan_options_outcome can_open rest 4 None (initial_world fs))
      as Hscan.
    destruct (scan_options _ _ _ _ _) as [tw file w | status w];
      cbn [scan_outcome fst snd] in *.
    + destruct Hscan as [_ Herr]. split; [by left|]. split; [done|].
      split; [|done]. intros _. by destruct file.
    + destruct Hscan as (-> & (Hcout & Hlog & _) & option & _ & Herr).
      split; [by right|]. split; [|done]. intros _.
      split; [done|]. split; [done|].
      eexists. rewrite Herr. cbn [cerr initial_world].
      rewrite invalid_argument_text. reflexivity.
  - destruct (String.eqb_spec argv1 "--help"); [by repeat split; auto|].
    destruct (String.eqb_spec argv1 "--version"); [by repeat split; auto|].
    unfold fail_with. cbn [cerr initial_world].
    rewrite invalid_option_text. cbn [fst snd].
    split; [by right|]. split; [|done]. intros _.
    split; [done|]. split; [done|]. eexists. reflexivity.
Qed.

(** X11: when the first token selects neither Plain, Verbose nor CodeGen
    mode (help, version, or an unrecognized option), the run does not
    depend on the probe nor on which files can be opened, calls no
    serializer method and touches no file. *)
Theorem no_probe_outside_serializing_modes :
  forall (debug' : debugger -> debug_result) (can_open' : string -> bool)
         (argv : list string) (w : world),
    serializing_mode argv = false ->
    main debug VERSION can_open argv w = main debug' VERSION can_open' argv w
    /\ invoked (main debug VERSION can_open argv w).2 = invoked w
    /\ files (main debug VERSION can_open argv w).2 = files w.
Proof.
  intros debug' can_open' argv w.
  destruct argv as [|argv0 [|argv1 rest]]; [done..|].
  cbn [serializing_mode]. rewrite !orb_false_iff. intros [[Hs Hv] Hc].
  unfold main. rewrite Hs, Hv, Hc.
  destruct (String.eqb argv1 "--help"); [done|].
  by destruct (String.eqb argv1 "--version").
Qed.

(** X12: the diagnostic for an unrecognized option does not tell how many
    dashes led it: two unrecognized first tokens that differ only in
    their leading dashes give the same run. *)
Theorem leading_dashes_not_reported :
  forall (argv0 argv0' name : string) (n m : nat) (rest rest' : list string)
         (w : world),
    recognized (dashes n +:+ name) = false ->
    recognized (dashes m +:+ name) = false ->
    main debug VERSION can_open (argv0 :: (dashes n +:+ name) :: rest) w
    = main debug VERSION can_open (argv0' :: (dashes m +:+ name) :: rest') w.
Proof.
  intros argv0 argv0' name n m rest rest' w Hn Hm.
  rewrite !main_unrecognized by done. unfold fail_with, print_invalid_option.
  cbv zeta. by rewrite !skip_dashes_dashes.
Qed.

(** X13: on every serializer, [serialize_single] applies [prefix], then
    the function-call operator on the probe's result of its one debugger,
    then [suffix], once each in this order. For a serializer whose
    [prefix] and [suffix] write nothing, the pass over the registry writes
    what running [serialize_single] on each entry in turn writes; with the
    code serializer, [serialize_single] writes a whole section around the
    one block: comment, BEGIN marker, blank line, block, END marker. *)
Theorem serialize_single_composes :
  (forall (S : Type) (HS : Serializer S) (serializer : S) (p : pass)
          (d : debugger),
      serialize_single debug d serializer p
      = {| pass_out :=
             suffix serializer
               (call serializer (debug d) (prefix serializer (pass_out p)));
           pass_log :=
             pass_log p
             ++ [invoke_prefix; invoke_call (debug d); invoke_suffix] |})
  /\ (forall (S : Type) (HS : Serializer S) (serializer : S) (p : pass),
         (forall out, prefix serializer out = out) ->
         (forall out, suffix serializer out = out) ->
         pass_out (serialize debug serializer p)
         = pass_out (fold_left
                       (fun p d => serialize_single debug d serializer p)
                       registry p))
  /\ (forall (self : code_serializer.t) (d : debugger) (t : string)
             (log : list invocation),
         pass_out (serialize_single debug d self
                     {| pass_out := fresh_stream t; pass_log := log |})
         = fresh_stream
             (t +:+ unlines
                      ([comment_line; begin_marker; EmptyString]
                       ++ block_lines (code_serializer.tab self) (debug d)
                       ++ [end_marker]))).
Proof.
  split; [|split].
  - intros S HS serializer p d.
    unfold serialize_single, run_suffix, run_call, run_prefix.
    cbn [pass_out pass_log]. by rewrite <- !app_assoc.
  - intros S HS serializer p Hprefix Hsuffix.
    rewrite serialize_spec. cbn [pass_out]. rewrite Hsuffix, Hprefix.
    generalize registry. intros ds. revert p.
    induction ds as [|d ds IH]; intros p; [done|].
    rewrite !fold_left_step, <- IH. f_equal.
    unfold serialize_single, run_suffix, run_call, run_prefix.
    cbn [pass_out]. by rewrite Hsuffix, Hprefix.
  - intros self d t log.
    unfold serialize_single, run_suffix, run_call, run_prefix.
    cbn [pass_out prefix call suffix code_Serializer].
    unfold code_serializer.prefix. cbv zeta. stream_norm.
    rewrite code_call_fresh. unfold code_serializer.suffix. stream_norm.
    unfold comment_line, begin_marker, end_marker.
    rewrite !unlines_app. unlines_norm. reflexivity.
Qed.

Lemma strip_prefix_sound (p s after : string) :
  strip_prefix p s = Some after -> s = p +:+ after.
Proof.
  revert s. induction p as [|c p IH]; intros s.
  - destruct s; by intros [= <-].
  - destruct s as [|c' s]; [done|]. cbn [strip_prefix].
    destruct (Ascii.eqb_spec c c') as [<- | _]; [|done].
    intros ->%IH. by rewrite append_cons.
Qed.

Lemma occurs_sound (needle text : string) :
  occurs needle text = true -> contains needle text.
Proof.
  induction text as [|c text IH]; cbn [occurs].
  - destruct (strip_prefix needle EmptyString) as [after|] eqn:Hp; [|done].
    intros _. apply strip_prefix_sound in Hp. exists EmptyString, after.
    exact Hp.
  - destruct (strip_prefix needle (String c text)) as [after|] eqn:Hp.
    + intros _. apply strip_prefix_sound in Hp. exists EmptyString, after.
      exact Hp.
    + intros (before & after & ->)%IH. by exists (String c before), after.
Qed.

(** X14: the usage text that [--help] writes names every first token
    that main recognizes, and the [-t] option of [--code]; [--version]
    writes the one line of the program name, the word version and the
    version. Both end with status 0 whatever follows the first token. *)
Theorem help_names_every_mode :
  forall (argv0 : string) (rest : list string) (fs : gmap string string),
    let help :=
      main debug VERSION can_open (argv0 :: "--help" :: rest)
        (initial_world fs) in
    let version :=
      main debug VERSION can_open (argv0 :: "--version" :: rest)
        (initial_world fs) in
    help.1 = 0%Z
    /\ (forall token,
           recognized token = true ->
           contains token (os_text (cout help.2)))
    /\ contains "-t" (os_text (cout help.2))
    /\ version.1 = 0%Z
    /\ os_text (cout version.2)
       = unlines [exe_name +:+ " version " +:+ VERSION].
Proof.
  intros argv0 rest fs. cbv zeta. split; [done|]. split; [|split; [|split]].
  - intros token. unfold recognized. rewrite !orb_true_iff.
    intros [[[[Ht | Ht] | Ht] | Ht] | Ht]; apply String.eqb_eq in Ht;
      subst token; apply occurs_sound; by vm_compute.
  - apply occurs_sound. by vm_compute.
  - done.
  - change (main debug VERSION can_open (argv0 :: "--version" :: rest)
              (initial_world fs))
      with (0%Z, set_cout (print_version VERSION (fresh_stream EmptyString))
                   (initial_world fs)).
    cbn [snd cout set_cout]. unfold print_version. stream_norm.
    cbn [os_text fresh_stream]. unlines_norm. reflexivity.
Qed.

End every_run.

Lemma leading_dashes_not_reported_witness :
  recognized (dashes 1 +:+ "simple") = false
  /\ recognized (dashes 3 +:+ "simple") = false
  /\ main sample_debug "1.0" sample_can_open
       ("tool" :: (dashes 1 +:+ "simple") :: []) (initial_world ∅)
     = main sample_debug "1.0" sample_can_open
         ("tool" :: (dashes 3 +:+ "simple") :: ["x"]) (initial_world ∅).
Proof.
  split; [reflexivity|]. split; [reflexivity|].
  exact (leading_dashes_not_reported sample_debug "1.0" sample_can_open
           "tool" "tool" "simple" 1 3 [] ["x"] (initial_world ∅)
           eq_refl eq_refl).
Defined.

Lemma no_probe_outside_serializing_modes_witness :
  serializing_mode ["tool"; "--version"; "x"] = false
  /\ main sample_debug "1.0" sample_can_open ["tool"; "--version"; "x"]
       (initial_world ∅)
     = main (fun _ => list_8_16) "1.0" (fun _ => false)
         ["tool"; "--version"; "x"] (initial_world ∅).
Proof.
  split; [reflexivity|].
  exact (proj1 (no_probe_outside_serializing_modes sample_debug "1.0"
                  sample_can_open (fun _ => list_8_16) (fun _ => false)
                  ["tool"; "--version"; "x"] (initial_world ∅) eq_refl)).
Defined.

Lemma serialize_single_composes_witness :
  (forall out, prefix simple_serializer.Build out = out)
  /\ (forall out, suffix simple_serializer.Build out = out)
  /\ pass_out (serialize sample_debug simple_serializer.Build
                 {| pass_out := fresh_stream EmptyString; pass_log := [] |})
     = pass_out (fold_left
                   (fun p d =>
                      serialize_single sample_debug d simple_serializer.Build
                        p)
                   registry
                   {| pass_out := fresh_stream EmptyString;
                      pass_log := [] |}).
Proof.
  split; [reflexivity|]. split; [reflexivity|].
  exact (proj1 (proj2 (serialize_single_composes sample_debug))
           _ _ simple_serializer.Build
           {| pass_out := fresh_stream EmptyString; pass_log := [] |}
           (fun _ => eq_refl) (fun _ => eq_refl)).
Defined.
